(** * LRAUV simulator plugins: a shallow embedding and its properties

    The development follows the C++ sources of the repository:

    - [FinLiftDragPlugin.cc]: the coefficient table lookup
      [FinLiftDragPrivateData::interpolate], the reading of the table
      from SDF ([createSpline], [Configure]) and the empty
      [FinLiftDragPlugin::PreUpdate];
    - [TethysCommPlugin] (second unit of the same file):
      [SetupControlTopics], [SetupEntities] with
      [AddAngularVelocityComponent] and [AddWorldPose],
      [CommandCallback] and [PostUpdate];
    - [WorldCommPlugin.cc]: [Configure], [SpawnCallback] and
      [TethysSdfString];
    - the [CommsPacket] conversions exercised by the unit test
      [CommsBasicUnitTest.CommsPacketConversions].

    A C++ [double] is an IEEE 754 binary64 number: Rocq's primitive
    [float], specified by [Prim2SF] into [spec_float].  Diagnostic
    output ([gzdbg], [gzerr], [igndbg], ...) is not part of the model. *)

From Stdlib Require Import ZArith List String Ascii Bool Lia DecimalString.
From Stdlib Require Import Floats.
Import ListNotations.

Set Warnings "-inexact-float".

Local Open Scope string_scope.
Local Open Scope list_scope.
Local Open Scope Z_scope.

(** * Part I: the model *)

(** ** Host library types

    Value types of the simulator's math library, as the plugins use
    them. *)

Record Vector3d := { X : float; Y : float; Z_ : float }.
Record Quaterniond := { qW : float; qX : float; qY : float; qZ : float }.
Record Pose3d := { Pos : Vector3d; Rot : Quaterniond }.

(** An entity handle of the entity-component manager. *)
Definition Entity := Z.
Definition kNullEntity : Entity := 0.

(** [M_PI] of [<cmath>], which [GZ_PI] expands to. *)
Definition M_PI : float := 3.14159265358979323846%float.
Definition GZ_PI : float := M_PI.

(** Operations of the math library that the plugins call.  Their code
    is the host's; the plugins are stated for any implementation. *)
Class GzMath := {
  (** [Quaternion::Euler()] *)
  Euler : Quaterniond -> Vector3d;
  (** [Quaternion(roll, pitch, yaw)] and [Quaternion::EulerToQuaternion] *)
  EulerToQuaternion : float -> float -> float -> Quaterniond;
  (** [Quaternion::operator*] *)
  qmul : Quaterniond -> Quaterniond -> Quaterniond;
  (** [Vector3::Length()] *)
  Length : Vector3d -> float;
  (** [math::SphericalCoordinates] and its [SphericalFromLocalPosition] *)
  SphericalCoords : Type;
  SphericalFromLocalPosition : SphericalCoords -> Vector3d -> Vector3d
}.

(** The entity-component manager and the queries on it that the
    plugins use.  A query that yields a [std::optional] yields an
    [option]. *)
Class GzSim := {
  ECM : Type;
  (** [worldPose(entity, ecm)] *)
  worldPose : Entity -> ECM -> Pose3d;
  (** [Link::WorldLinearVelocity(ecm)] *)
  WorldLinearVelocity : Entity -> ECM -> option Vector3d;
  (** [Link::WorldAngularVelocity(ecm)] *)
  WorldAngularVelocity : Entity -> ECM -> option Vector3d;
  (** [worldEntity(entity, ecm)] *)
  worldEntity : Entity -> ECM -> Entity;
  (** [World::Name(ecm)] *)
  WorldName : Entity -> ECM -> option string;
  (** [sphericalCoordinates(entity, ecm).has_value()] *)
  hasSphericalCoordinates : Entity -> ECM -> bool;
  (** [transport::TopicUtils::AsValidTopic] *)
  AsValidTopic : string -> string
}.

(** ** Integers and time *)

Definition INT_MIN : Z := - 2 ^ 31.
Definition INT_MAX : Z := 2 ^ 31 - 1.

(** Conversion of a 64-bit count to [int]: the value modulo [2^32]. *)
Definition wrap32 (z : Z) : Z := (z + 2 ^ 31) mod 2 ^ 32 - 2 ^ 31.

(** [std::chrono] durations are tick counts; [steady_clock::duration]
    counts nanoseconds. *)
Definition duration := Z.
Definition seconds (n : Z) : duration := n * 1000000000.
Definition milliseconds (n : Z) : duration := n * 1000000.
(** [duration_cast<seconds>(d).count()]: truncation toward zero. *)
Definition count_seconds (d : duration) : Z := Z.quot d 1000000000.

Record UpdateInfo := { simTime : duration }.

(** [floor] of a double as an integer; [None] for infinities and NaN. *)
Definition floorZ (x : float) : option Z :=
  match Prim2SF x with
  | S754_zero _ => Some 0
  | S754_finite s m e => Some (Z.shiftl (cond_Zopp s (Z.pos m)) e)
  | S754_infinity _ | S754_nan => None
  end.

(** What [int(floor(x))] evaluates to when the floor does not fit an
    [int] (C++ leaves the conversion undefined there; the hardware
    conversion delivers some [int]). *)
Class FloatToInt := {
  int_indefinite : float -> Z
}.

(** [int(floor(x))] *)
Definition int_floor `{FloatToInt} (x : float) : Z :=
  match floorZ x with
  | Some z => if (INT_MIN <=? z) && (z <=? INT_MAX) then z else int_indefinite x
  | None => int_indefinite x
  end.

(** The sign bit of a number that is not a NaN. *)
Definition SFsign (x : spec_float) : option bool :=
  match x with
  | S754_zero s | S754_infinity s | S754_finite s _ _ => Some s
  | S754_nan => None
  end.

Definition is_zero_sf (x : spec_float) : bool :=
  match x with S754_zero _ => true | _ => false end.

(** The significand of [1.0]. *)
Definition two52 : positive := 4503599627370496.

(** ** [std::map<double, double>]

    The map keeps its entries in strictly increasing key order; an
    iterator is a position in that order and [end()] is the size.
    Keys are only ever compared with [<], as [std::less<double>] does. *)

Module StdMap.

Definition map := list (float * float).
Definition iterator := nat.

Definition begin_ (m : map) : iterator := 0%nat.
Definition end_ (m : map) : iterator := List.length m.

(** Dereferencing; [None] at [end()]. *)
Definition deref (m : map) (it : iterator) : option (float * float) :=
  nth_error m it.

(** First position whose key is not less than [k]. *)
Fixpoint lower_bound (m : map) (k : float) : iterator :=
  match m with
  | [] => 0%nat
  | (k', _) :: m' => if (k' <? k)%float then S (lower_bound m' k) else 0%nat
  end.

(** First position whose key is greater than [k]. *)
Fixpoint upper_bound (m : map) (k : float) : iterator :=
  match m with
  | [] => 0%nat
  | (k', _) :: m' => if (k <? k')%float then 0%nat else S (upper_bound m' k)
  end.

Definition find (m : map) (k : float) : iterator :=
  let it := lower_bound m k in
  match deref m it with
  | Some (k', _) => if (k <? k')%float then end_ m else it
  | None => end_ m
  end.

(** Keys are unique: [count] is 0 or 1. *)
Definition count (m : map) (k : float) : nat :=
  if Nat.eqb (find m k) (end_ m) then 0%nat else 1%nat.

(** [std::prev]; there is no position before [begin()]. *)
Definition prev (it : iterator) : option iterator :=
  match it with
  | O => None
  | S it' => Some it'
  end.

(** The ordering invariant of the container. *)
Fixpoint is_ordered (m : map) : bool :=
  match m with
  | [] => true
  | (k, _) :: m' =>
      forallb (fun kv => (k <? fst kv)%float) m' && is_ordered m'
  end.

End StdMap.

(** ** Messages

    The message classes are generated from protobuf descriptions that
    are not among the sources.  A record lists the fields the plugins
    access; a numeric field is a [double], as the values the code
    stores into it are. *)

Module Msgs.

Record StringMsg := { str_data : string }.
Record DoubleMsg := { data : float }.
Record Time := { sec : Z; nsec : Z }.
Record Header := { stamp : Time }.

Inductive SurfaceModel := EARTH_WGS84 | MOON_SCS | CUSTOM_SURFACE.

Record SphericalCoordinates := {
  surface_model : SurfaceModel;
  latitude_deg : float;
  longitude_deg : float;
  elevation : float;
  heading_deg : float
}.

(** A message as its default constructor leaves it. *)
Definition SphericalCoordinates_default : SphericalCoordinates :=
  {| surface_model := EARTH_WGS84; latitude_deg := 0; longitude_deg := 0;
     elevation := 0; heading_deg := 0 |}.

Record EntityFactory := {
  sdf : string;
  pose_orientation : Quaterniond;
  spherical_coordinates : SphericalCoordinates
}.

Record LRAUVInit := {
  (** [None] when [has_id_()] is false *)
  id_ : option StringMsg;
  initLat_ : float;
  initLon_ : float;
  initZ_ : float;
  initPitch_ : float;
  initRoll_ : float;
  initHeading_ : float;
  acommsAddress_ : Z
}.

Record LRAUVCommand := {
  propOmegaAction_ : float;
  rudderAngleAction_ : float;
  elevatorAngleAction_ : float;
  massPositionAction_ : float;
  buoyancyAction_ : float;
  density_ : float;
  dt_ : float;
  time_ : float
}.

Record LRAUVState := {
  header : Header;
  rph_ : Vector3d;
  depth_ : float;
  speed_ : float;
  latitudeDeg_ : float;
  longitudeDeg_ : float;
  propOmega_ : float
}.

End Msgs.

(** ** FinLiftDragPlugin *)

Module FinLiftDragPlugin.

Import StdMap.

Record FinLiftDragPrivateData := {
  splineCd : map;
  splineCl : map;
  forward : Vector3d;
  upward : Vector3d;
  linkEntity : Entity;
  model : Entity;
  validConfig : bool
}.

(** How a call of a function declared to return a [double] ends:
    with [return v]; by reaching the closing brace without a [return]
    statement, where C++ defines no result; or at an iterator that must
    not be used (dereferencing [end()], stepping before [begin()]). *)
Inductive outcome :=
| Returns (v : float)
| NoReturnStatement
| InvalidIterator.

(** [FinLiftDragPrivateData::interpolate] *)
Definition interpolate (_spline : map) (_angle : float) : outcome :=
  if (0 <? count _spline _angle)%nat then
    match deref _spline (find _spline _angle) with
    | Some kv => Returns (snd kv)
    | None => InvalidIterator
    end
  else
    let right_ := upper_bound _spline _angle in
    match
      (if Nat.eqb right_ (end_ _spline)
       then (* Wrap around *) deref _spline (begin_ _spline)
       else deref _spline right_)
    with
    | Some (rightAng, rightVal) =>
        match prev right_ with
        | Some left_ => NoReturnStatement
        | None => InvalidIterator
        end
    | None => InvalidIterator
    end.

(** [FinLiftDragPlugin::PreUpdate]: the body is empty.  The function
    is given the plugin data and the entity-component manager by
    reference and hands both back; [Action] stands for whatever a
    system may emit (publications, requests). *)
Definition PreUpdate {ECM Action : Type} (self : FinLiftDragPrivateData)
    (_info : UpdateInfo) (_ecm : ECM)
  : FinLiftDragPrivateData * ECM * list Action :=
  (self, _ecm, []).

(** The simulation loop calls [PreUpdate] once per step, threading the
    plugin data and the entity-component manager through. *)
Fixpoint PreUpdate_steps {ECM Action : Type} (self : FinLiftDragPrivateData)
    (steps : list UpdateInfo) (_ecm : ECM)
  : FinLiftDragPrivateData * ECM * list Action :=
  match steps with
  | [] => (self, _ecm, [])
  | _info :: steps' =>
      let '(self1, ecm1, out1) := PreUpdate self _info _ecm in
      let '(self2, ecm2, out2) := PreUpdate_steps self1 steps' ecm1 in
      (self2, ecm2, out1 ++ out2)
  end.

End FinLiftDragPlugin.

(** ** TethysCommPlugin *)

Module TethysCommPlugin.

Import Msgs.

(** A [transport::Node::Publisher], bound to the topic it was
    advertised on. *)
Record Publisher := { pub_topic : string }.

Definition Advertise (topic : string) : Publisher := {| pub_topic := topic |}.

(** A call of [Publisher::Publish]. *)
Inductive Publication :=
| PublishDouble (pub : Publisher) (msg : DoubleMsg)
| PublishState (pub : Publisher) (msg : LRAUVState).

Record Plugin `{GzMath} := {
  commandTopic : string;
  stateTopic : string;
  rudderTopic : string;
  elevatorTopic : string;
  thrusterTopic : string;
  statePub : Publisher;
  rudderPub : Publisher;
  elevatorPub : Publisher;
  thrusterPub : Publisher;
  modelLink : Entity;
  rudderLink : Entity;
  elevatorLink : Entity;
  thrusterLink : Entity;
  sphericalCoords : SphericalCoords;
  prevPubPrintTime : duration;
  prevSubPrintTime : duration
}.

Definition set_publishers `{GzMath} (self : Plugin)
    (rudder elevator thruster : Publisher) : Plugin :=
  {| commandTopic := commandTopic self; stateTopic := stateTopic self;
     rudderTopic := rudderTopic self; elevatorTopic := elevatorTopic self;
     thrusterTopic := thrusterTopic self; statePub := statePub self;
     rudderPub := rudder; elevatorPub := elevator; thrusterPub := thruster;
     modelLink := modelLink self; rudderLink := rudderLink self;
     elevatorLink := elevatorLink self; thrusterLink := thrusterLink self;
     sphericalCoords := sphericalCoords self;
     prevPubPrintTime := prevPubPrintTime self;
     prevSubPrintTime := prevSubPrintTime self |}.

Definition set_printTimes `{GzMath} (self : Plugin) (pub sub : duration)
  : Plugin :=
  {| commandTopic := commandTopic self; stateTopic := stateTopic self;
     rudderTopic := rudderTopic self; elevatorTopic := elevatorTopic self;
     thrusterTopic := thrusterTopic self; statePub := statePub self;
     rudderPub := rudderPub self; elevatorPub := elevatorPub self;
     thrusterPub := thrusterPub self;
     modelLink := modelLink self; rudderLink := rudderLink self;
     elevatorLink := elevatorLink self; thrusterLink := thrusterLink self;
     sphericalCoords := sphericalCoords self;
     prevPubPrintTime := pub; prevSubPrintTime := sub |}.

(** [TethysCommPlugin::SetupControlTopics] *)
Definition SetupControlTopics `{GzMath} (self : Plugin) : Plugin :=
  set_publishers self
    (Advertise (rudderTopic self))
    (Advertise (elevatorTopic self))
    (Advertise (thrusterTopic self)).

(** The thruster force for a commanded propeller speed, as
    [CommandCallback] computes it.  [60*2] is the [int] 120, converted
    to [double] for the product with [M_PI]; the products associate to
    the left. *)
Definition angVel_of (propOmegaAction : float) : float :=
  (propOmegaAction / (120 * M_PI))%float.

Definition thrust_force (propOmegaAction : float) : float :=
  let angVel := angVel_of propOmegaAction in
  let force := (-7.879 * 1000 * 0.0016 * angVel * angVel)%float in
  if (angVel <? 0)%float then (force * -1)%float else force.

(** [TethysCommPlugin::CommandCallback] *)
Definition CommandCallback `{GzMath} `{FloatToInt}
    (self : Plugin) (_msg : LRAUVCommand) : Plugin * list Publication :=
  let t := seconds (int_floor (time_ _msg)) in
  let self' :=
    if milliseconds 1000 <? t - prevSubPrintTime self
    then set_printTimes self (prevPubPrintTime self) t
    else self in
  (* Rudder *)
  let rudderAngMsg := {| data := rudderAngleAction_ _msg |} in
  (* Elevator *)
  let elevatorAngMsg := {| data := elevatorAngleAction_ _msg |} in
  (* Thruster *)
  let thrusterMsg := {| data := thrust_force (propOmegaAction_ _msg) |} in
  (self',
   [ PublishDouble (rudderPub self') rudderAngMsg;
     PublishDouble (elevatorPub self') elevatorAngMsg;
     PublishDouble (thrusterPub self') thrusterMsg ]).

(** [TethysCommPlugin::PreUpdate]: only a comment in the body. *)
Definition PreUpdate `{GzMath} `{GzSim}
    (self : Plugin) (_info : UpdateInfo) (_ecm : ECM)
  : Plugin * ECM * list Publication :=
  (self, _ecm, []).

(** [TethysCommPlugin::PostUpdate].  The velocities are read through
    [operator->] of the [std::optional] the link query yields; the
    result is [None] when that optional is empty, where the access is
    undefined. *)
Definition PostUpdate `{GzMath} `{GzSim}
    (self : Plugin) (_info : UpdateInfo) (_ecm : ECM)
  : option (Plugin * list Publication) :=
  let baseLink := modelLink self in
  let model_pose := worldPose (modelLink self) _ecm in
  let stamp_sec := count_seconds (simTime _info) in
  let stamp_nsec := wrap32 (wrap32 (simTime _info) - stamp_sec * 1000000000) in
  let rph := Euler (Rot model_pose) in
  match WorldLinearVelocity baseLink _ecm with
  | None => None
  | Some linVel =>
    let latlon :=
      SphericalFromLocalPosition (sphericalCoords self) (Pos model_pose) in
    let propLink := thrusterLink self in
    match WorldAngularVelocity propLink _ecm with
    | None => None
    | Some angVel =>
      let prop_omega := Length angVel in
      let stateMsg :=
        {| header := {| stamp := {| sec := stamp_sec; nsec := stamp_nsec |} |};
           rph_ := rph;
           depth_ := (- Z_ (Pos model_pose))%float;
           speed_ := Length linVel;
           latitudeDeg_ := X latlon;
           longitudeDeg_ := Y latlon;
           propOmega_ := prop_omega |} in
      let self' :=
        if milliseconds 1000 <? simTime _info - prevPubPrintTime self
        then set_printTimes self (simTime _info) (prevSubPrintTime self)
        else self in
      Some (self', [PublishState (statePub self) stateMsg])
    end
  end.

End TethysCommPlugin.

(** ** WorldCommPlugin *)

Module WorldCommPlugin.

Import Msgs.

(** The request message of a service call. *)
Inductive RequestMsg :=
| ReqSphericalCoordinates (req : SphericalCoordinates)
| ReqEntityFactory (req : EntityFactory)
| ReqStringMsg (req : StringMsg).

(** One call of [Node::Request]: the service, the request message and
    what the call returned ([true]: the service was requested). *)
Record ServiceCall := {
  service : string;
  request : RequestMsg;
  requested : bool
}.

(** The transport node.  Whether a call of [Request] or [Subscribe]
    goes through is the transport's matter: [accepts n] is the outcome
    of the [n]-th call of [Request] on this node, [subscribable] that of
    a subscription.  [calls] and [subscriptions] record what the plugin
    did, oldest first. *)
Record Node := {
  accepts : nat -> bool;
  subscribable : string -> bool;
  calls : list ServiceCall;
  subscriptions : list string
}.

Definition Request (n : Node) (svc : string) (req : RequestMsg) : bool * Node :=
  let ok := accepts n (List.length (calls n)) in
  (ok,
   {| accepts := accepts n; subscribable := subscribable n;
      calls := calls n ++ [{| service := svc; request := req; requested := ok |}];
      subscriptions := subscriptions n |}).

Definition Subscribe (n : Node) (topic : string) : bool * Node :=
  let ok := subscribable n topic in
  (ok,
   {| accepts := accepts n; subscribable := subscribable n;
      calls := calls n;
      subscriptions :=
        if ok then subscriptions n ++ [topic] else subscriptions n |}).

Record Plugin := {
  spawnTopic : string;
  createService : string;
  performerService : string;
  setSphericalCoordsService : string;
  hasWorldLatLon : bool;
  node : Node
}.

Definition with_node (self : Plugin) (n : Node) : Plugin :=
  {| spawnTopic := spawnTopic self; createService := createService self;
     performerService := performerService self;
     setSphericalCoordsService := setSphericalCoordsService self;
     hasWorldLatLon := hasWorldLatLon self; node := n |}.

Definition with_hasWorldLatLon (self : Plugin) (b : bool) : Plugin :=
  {| spawnTopic := spawnTopic self; createService := createService self;
     performerService := performerService self;
     setSphericalCoordsService := setSphericalCoordsService self;
     hasWorldLatLon := b; node := node self |}.

Definition with_spawnTopic (self : Plugin) (t : string) : Plugin :=
  {| spawnTopic := t; createService := createService self;
     performerService := performerService self;
     setSphericalCoordsService := setSphericalCoordsService self;
     hasWorldLatLon := hasWorldLatLon self; node := node self |}.

(** An SDF element, as the plugins read it: named children with their
    text. *)
Definition SdfElement := list (string * string).

Definition HasElement (_sdf : SdfElement) (name : string) : bool :=
  existsb (fun kv => String.eqb (fst kv) name) _sdf.

Definition Get (_sdf : SdfElement) (name : string) : string :=
  match List.find (fun kv => String.eqb (fst kv) name) _sdf with
  | Some kv => snd kv
  | None => EmptyString
  end.

Definition empty (s : string) : bool :=
  match s with EmptyString => true | _ => false end.

(** [WorldCommPlugin::Configure] *)
Definition Configure `{GzSim} (self : Plugin) (_entity : Entity)
    (_sdf : SdfElement) (_ecm : ECM) : Plugin :=
  (* Parse SDF parameters *)
  let self :=
    if HasElement _sdf "spawn_topic"
    then with_spawnTopic self (Get _sdf "spawn_topic")
    else self in
  (* Initialize transport *)
  let '(ok, n) := Subscribe (node self) (spawnTopic self) in
  let self := with_node self n in
  if negb ok then self
  else
    let worldEntity := worldEntity _entity _ecm in
    let worldName :=
      if Z.eqb kNullEntity worldEntity then EmptyString
      else match WorldName worldEntity _ecm with
           | Some name => name
           | None => EmptyString
           end in
    if empty worldName then self
    else
      (* Valid world name for services *)
      let topicWorldName := AsValidTopic worldName in
      if empty topicWorldName then self
      else
        (* Services *)
        {| spawnTopic := spawnTopic self;
           createService :=
             ("/world/" ++ topicWorldName ++ "/create")%string;
           performerService :=
             ("/world/" ++ topicWorldName ++ "/level/set_performer")%string;
           setSphericalCoordsService :=
             ("/world/" ++ topicWorldName ++ "/set_spherical_coordinates")%string;
           hasWorldLatLon := hasSphericalCoordinates worldEntity _ecm;
           node := node self |}.

(** The SDF text is written below with an apostrophe wherever the
    source has a double quote; [q] puts the double quotes back. *)
Definition dquote : ascii := ascii_of_nat 34.

Fixpoint q (s : string) : string :=
  match s with
  | EmptyString => EmptyString
  | String c s' =>
      String (if Ascii.eqb c (ascii_of_nat 39) then dquote else c) (q s')
  end.

(** [std::to_string] of an unsigned integer. *)
Definition to_string (n : Z) : string :=
  NilZero.string_of_uint (N.to_uint (Z.to_N n)).

(** [WorldCommPlugin::TethysSdfString] *)
Definition TethysSdfString (_msg : LRAUVInit) : string :=
  let _id :=
    match id_ _msg with Some s => str_data s | None => EmptyString end in
  let _acommsAddress := to_string (acommsAddress_ _msg) in
  (q "
  <sdf version='1.9'>
  <model name='" ++
  _id ++
  q "'>
    <include merge='true'>

      <!--
          Without any extra pose offset, the model is facing West.
          For the controller, zero orientation means the robot is facing North.
          So we need to rotate it.
          Note that this pose is expressed in ENU.
      <pose degrees='true'>0 0 0  0 0 -90</pose>
      -->

      <!-- rename included model to avoid frame collisions -->
      <name>tethys_equipped</name>

      <uri>tethys_equipped</uri>

      <experimental:params>

        <sensor element_id='base_link::salinity_sensor' action='modify'>
          <topic>/model/" ++
  _id ++
  q "/salinity</topic>
        </sensor>

        <sensor element_id='base_link::temperature_sensor' action='modify'>
          <topic>/model/" ++
  _id ++
  q "/temperature</topic>
        </sensor>

        <sensor element_id='base_link::chlorophyll_sensor' action='modify'>
          <topic>/model/" ++
  _id ++
  q "/chlorophyll</topic>
        </sensor>

        <sensor element_id='base_link::current_sensor' action='modify'>
          <topic>/model/" ++
  _id ++
  q "/current</topic>
        </sensor>

        <sensor element_id='base_link::sparton_ahrs_m2_imu' action='modify'>
          <topic>/" ++
  _id ++
  q "/ahrs/imu</topic>
        </sensor>

        <sensor element_id='base_link::sparton_ahrs_m2_magnetometer' action='modify'>
          <topic>/" ++
  _id ++
  q "/ahrs/magnetometer</topic>
        </sensor>

        <sensor element_id='base_link::teledyne_pathfinder_dvl' action='modify'>
          <topic>/" ++
  _id ++
  q "/dvl/velocity</topic>
        </sensor>

        <plugin element_id='gz::sim::systems::Thruster' action='modify'>
          <namespace>" ++
  _id ++
  q "</namespace>
        </plugin>

        <plugin element_id='tethys::TethysCommPlugin' action='modify'>
          <namespace>" ++
  _id ++
  q "</namespace>
          <command_topic>" ++
  _id ++
  q "/command_topic</command_topic>
          <state_topic>" ++
  _id ++
  q "/state_topic</state_topic>
        </plugin>

        <plugin element_id='gz::sim::systems::BuoyancyEngine' action='modify'>
          <namespace>" ++
  _id ++
  q "</namespace>
        </plugin>

        <plugin element_id='gz::sim::systems::DetachableJoint' action='modify'>
          <topic>/model/" ++
  _id ++
  q "/drop_weight</topic>
        </plugin>

        <plugin element_id='gz::sim::systems::CommsEndpoint' action='modify'>
          <address>" ++
  _acommsAddress ++
  q "</address>
          <topic>" ++
  _acommsAddress ++
  q "/rx</topic>
        </plugin>

        <plugin element_id='tethys::RangeBearingPlugin' action='modify'>
          <address>" ++
  _acommsAddress ++
  q "</address>
          <namespace>" ++
  _id ++
  q "</namespace>
        </plugin>

      </experimental:params>
    </include>
  </model>
  </sdf>")%string.

(** [WorldCommPlugin::SpawnCallback] *)
Definition SpawnCallback `{GzMath} (self : Plugin) (_msg : LRAUVInit)
  : Plugin :=
  match id_ _msg with
  | None => self
  | Some id =>
    let lat := initLat_ _msg in
    let lon := initLon_ _msg in
    let ele := (- initZ_ _msg)%float in
    (* Center the world around the first vehicle spawned *)
    let self :=
      if negb (hasWorldLatLon self) then
        (* Set spherical coordinates *)
        let scReq :=
          {| surface_model := EARTH_WGS84;
             latitude_deg := lat;
             longitude_deg := lon;
             elevation := ele;
             heading_deg := 0 |} in
        let '(ok, n) :=
          Request (node self) (setSphericalCoordsService self)
                  (ReqSphericalCoordinates scReq) in
        if negb ok then with_node self n
        else with_hasWorldLatLon (with_node self n) true
      else self in
    (* Create vehicle *)
    let coords :=
      {| surface_model := EARTH_WGS84;
         latitude_deg := lat;
         longitude_deg := lon;
         elevation := ele;
         heading_deg := heading_deg SphericalCoordinates_default |} in
    let orientation :=
      EulerToQuaternion (initRoll_ _msg) (initPitch_ _msg) (initHeading_ _msg) in
    let rotENU :=
      EulerToQuaternion (initPitch_ _msg) (initRoll_ _msg)
                        (- initHeading_ _msg)%float in
    let rotRobot :=
      qmul (EulerToQuaternion 0 0 (- GZ_PI * 0.5)%float) rotENU in
    let orientation := rotRobot in
    let factoryReq :=
      {| sdf := TethysSdfString _msg;
         pose_orientation := orientation;
         spherical_coordinates := coords |} in
    let '(ok, n) :=
      Request (node self) (createService self) (ReqEntityFactory factoryReq) in
    if negb ok then with_node self n
    else
      (* Make spawned model a performer *)
      let performerReq := {| str_data := str_data id |} in
      let '(_, n') :=
        Request n (performerService self) (ReqStringMsg performerReq) in
      with_node self n'
  end.

(** The service calls made between two states of the plugin. *)
Definition issued (before after : Plugin) : list ServiceCall :=
  skipn (List.length (calls (node before))) (calls (node after)).

(** The calls that ask for the world origin to be set, and those among
    them that went through. *)
Definition is_origin_request (c : ServiceCall) : bool :=
  match request c with
  | ReqSphericalCoordinates _ => true
  | _ => false
  end.

Definition origin_requests (l : list ServiceCall) : list ServiceCall :=
  filter is_origin_request l.

Definition origin_requested (l : list ServiceCall) : list ServiceCall :=
  filter (fun c => is_origin_request c && requested c) l.

(** Delivery of a sequence of spawn messages, one callback after the
    other. *)
Definition deliver `{GzMath} (self : Plugin) (msgs : list LRAUVInit) : Plugin :=
  fold_left SpawnCallback msgs self.

End WorldCommPlugin.

(** ** CommsPacket *)

Module CommsPacket.

Section Packet.

(** The enumeration of acoustic message kinds; the unit test names its
    member [Other]. *)
Variable MessageType : Type.

(** The acoustic message exchanged with the vehicle controller. *)
Record LRAUVAcousticMessage := {
  msg_to : Z;
  msg_from : Z;
  msg_type : MessageType;
  msg_data : string
}.

(** The wire form exchanged inside the simulator. *)
Record LRAUVInternalComms := {
  wire_to : Z;
  wire_from : Z;
  wire_type : MessageType;
  wire_data : string;
  wire_position : Vector3d;
  wire_timeOfTx : Z
}.

(** The packet: addressing, payload, position of the sender and time of
    transmission (a [steady_clock] time point, in ticks). *)
Record CommsPacket := {
  To : Z;
  From : Z;
  Type_ : MessageType;
  Data : string;
  Position : Vector3d;
  TimeOfTransmission : Z
}.

(** Modelled from the spec: [CommsPacket::make(msg, position, time)] is
    not among the sources (only the unit test that calls it is).  The
    packet takes its addressing, type and payload from the message and
    records the position and the time it is given. *)
Definition make (datapayload : LRAUVAcousticMessage) (position : Vector3d)
    (timeOfTx : Z) : CommsPacket :=
  {| To := msg_to datapayload;
     From := msg_from datapayload;
     Type_ := msg_type datapayload;
     Data := msg_data datapayload;
     Position := position;
     TimeOfTransmission := timeOfTx |}.

(** Modelled from the spec: [CommsPacket::ToInternalMsg] is not among
    the sources.  The wire form is a fixed record holding every field of
    the packet. *)
Definition ToInternalMsg (p : CommsPacket) : LRAUVInternalComms :=
  {| wire_to := To p;
     wire_from := From p;
     wire_type := Type_ p;
     wire_data := Data p;
     wire_position := Position p;
     wire_timeOfTx := TimeOfTransmission p |}.

(** Modelled from the spec: [CommsPacket::make(internalMsg)] is not
    among the sources.  Decoding reads the packet's fields back from
    the wire form. *)
Definition make_internal (datapayload : LRAUVInternalComms) : CommsPacket :=
  {| To := wire_to datapayload;
     From := wire_from datapayload;
     Type_ := wire_type datapayload;
     Data := wire_data datapayload;
     Position := wire_position datapayload;
     TimeOfTransmission := wire_timeOfTx datapayload |}.

(** Modelled from the spec: [CommsPacket::ToExternalMsg] is not among
    the sources.  The acoustic message carries the packet's addressing,
    type and payload. *)
Definition ToExternalMsg (p : CommsPacket) : LRAUVAcousticMessage :=
  {| msg_to := To p;
     msg_from := From p;
     msg_type := Type_ p;
     msg_data := Data p |}.

End Packet.

Arguments make {MessageType}.
Arguments ToInternalMsg {MessageType}.
Arguments make_internal {MessageType}.
Arguments ToExternalMsg {MessageType}.

End CommsPacket.

(** ** A host to run the model on

    A small entity-component store, in which a component that was
    never created is absent, and stand-ins for the math library.  The
    properties below hold for every host; this one serves to evaluate
    the plugins on concrete inputs. *)

Module ExampleHost.

Record Components := {
  comp_WorldPose : Pose3d;
  comp_WorldLinearVelocity : option Vector3d;
  comp_AngularVelocity : option Vector3d;
  comp_WorldAngularVelocity : option Vector3d
}.

Definition origin : Vector3d := {| X := 0; Y := 0; Z_ := 0 |}.
Definition identity : Quaterniond := {| qW := 1; qX := 0; qY := 0; qZ := 0 |}.

Definition sim : GzSim :=
  {| ECM := Entity -> Components;
     worldPose := fun e ecm => comp_WorldPose (ecm e);
     WorldLinearVelocity := fun e ecm => comp_WorldLinearVelocity (ecm e);
     WorldAngularVelocity := fun e ecm => comp_WorldAngularVelocity (ecm e);
     worldEntity := fun _ _ => 1;
     WorldName := fun _ _ => Some "buoyant_tethys";
     hasSphericalCoordinates := fun _ _ => false;
     AsValidTopic := fun name => name |}.

Definition math : GzMath :=
  {| Euler := fun _ => origin;
     EulerToQuaternion := fun _ _ _ => identity;
     qmul := fun a _ => a;
     Length := fun v => sqrt (X v * X v + Y v * Y v + Z_ v * Z_ v)%float;
     SphericalCoords := unit;
     SphericalFromLocalPosition := fun _ p => p |}.

Definition conv : FloatToInt := {| int_indefinite := fun _ => INT_MIN |}.

(** A configured world plugin without world origin, on a transport
    that lets every request through. *)
Definition world : WorldCommPlugin.Plugin :=
  {| WorldCommPlugin.spawnTopic := "lrauv/init";
     WorldCommPlugin.createService := "/world/buoyant_tethys/create";
     WorldCommPlugin.performerService :=
       "/world/buoyant_tethys/level/set_performer";
     WorldCommPlugin.setSphericalCoordsService :=
       "/world/buoyant_tethys/set_spherical_coordinates";
     WorldCommPlugin.hasWorldLatLon := false;
     WorldCommPlugin.node :=
       {| WorldCommPlugin.accepts := fun _ => true;
          WorldCommPlugin.subscribable := fun _ => true;
          WorldCommPlugin.calls := [];
          WorldCommPlugin.subscriptions := ["lrauv/init"] |} |}.

Definition spawn (id : option Msgs.StringMsg) (lat lon z : float)
  : Msgs.LRAUVInit :=
  {| Msgs.id_ := id;
     Msgs.initLat_ := lat; Msgs.initLon_ := lon; Msgs.initZ_ := z;
     Msgs.initPitch_ := 0; Msgs.initRoll_ := 0; Msgs.initHeading_ := 0;
     Msgs.acommsAddress_ := 1 |}.

(** The store when a vehicle has been loaded: every link has its pose
    and no velocity component yet. *)
Definition loaded_ecm : Entity -> Components :=
  fun _ =>
    {| comp_WorldPose := {| Pos := origin; Rot := identity |};
       comp_WorldLinearVelocity := None;
       comp_AngularVelocity := None;
       comp_WorldAngularVelocity := None |}.

(** [AddAngularVelocityComponent] on this store: both angular velocity
    components of the entity are created unless they are there. *)
Definition AddAngularVelocityComponent (_entity : Entity)
    (_ecm : Entity -> Components) : Entity -> Components :=
  fun e =>
    if Z.eqb e _entity then
      {| comp_WorldPose := comp_WorldPose (_ecm e);
         comp_WorldLinearVelocity := comp_WorldLinearVelocity (_ecm e);
         comp_AngularVelocity :=
           match comp_AngularVelocity (_ecm e) with
           | Some v => Some v
           | None => Some origin
           end;
         comp_WorldAngularVelocity :=
           match comp_WorldAngularVelocity (_ecm e) with
           | Some v => Some v
           | None => Some origin
           end |}
    else _ecm e.

(** The store as [SetupEntities] leaves it: angular velocity created
    for the propeller link (entity 3); the world poses it also asks for
    are there already; nothing creates a world linear velocity for the
    base link (entity 2). *)
Definition fresh_ecm : Entity -> Components :=
  AddAngularVelocityComponent 3 loaded_ecm.

Definition vehicle : @TethysCommPlugin.Plugin math :=
  {| TethysCommPlugin.commandTopic := "command_topic";
     TethysCommPlugin.stateTopic := "state_topic";
     TethysCommPlugin.rudderTopic := "rudder";
     TethysCommPlugin.elevatorTopic := "elevator";
     TethysCommPlugin.thrusterTopic := "thruster";
     TethysCommPlugin.statePub := TethysCommPlugin.Advertise "state_topic";
     TethysCommPlugin.rudderPub := TethysCommPlugin.Advertise "rudder";
     TethysCommPlugin.elevatorPub := TethysCommPlugin.Advertise "elevator";
     TethysCommPlugin.thrusterPub := TethysCommPlugin.Advertise "thruster";
     TethysCommPlugin.modelLink := 2;
     TethysCommPlugin.rudderLink := 4;
     TethysCommPlugin.elevatorLink := 5;
     TethysCommPlugin.thrusterLink := 3;
     TethysCommPlugin.sphericalCoords := (tt : @SphericalCoords math);
     TethysCommPlugin.prevPubPrintTime := 0;
     TethysCommPlugin.prevSubPrintTime := 0 |}.

End ExampleHost.

(** ** SDF elements with children

    An [sdf::Element] as [createSpline] walks it: a name, the values
    [Get<double>] finds in it by key, and the child elements in document
    order.  [GetFirstElement] is the first child and [GetNextElement]
    the next sibling, so a walk over the children is a walk down the
    list. *)

Module Sdf.

#[local] Set Warnings "-register-all".

Inductive Element :=
| Elem (name : string) (doubles : list (string * float))
       (elements : list Element).

Definition GetName (e : Element) : string :=
  match e with Elem name _ _ => name end.

Definition doubles_of (e : Element) : list (string * float) :=
  match e with Elem _ doubles _ => doubles end.

Definition children (e : Element) : list Element :=
  match e with Elem _ _ elements => elements end.

Definition HasElement (e : Element) (name : string) : bool :=
  existsb (fun c => String.eqb (GetName c) name) (children e).

(** [None] is the null pointer. *)
Definition GetFirstElement (e : Element) : option Element :=
  hd_error (children e).

(** [Get<double>(key)]; the default-constructed [0.0] when the element
    holds nothing under the key. *)
Definition Get_double (e : Element) (key : string) : float :=
  match List.find (fun kv => String.eqb (fst kv) key) (doubles_of e) with
  | Some kv => snd kv
  | None => 0%float
  end.

End Sdf.

(** ** [std::map::insert]

    Insertion walks to the first entry whose key is not less than the
    new key; the entry is put there unless the key found is equivalent
    (neither less nor greater), in which case the map stays as it is. *)

Module StdMapInsert.

Import StdMap.

Fixpoint insert (m : map) (kv : float * float) : map :=
  match m with
  | [] => [kv]
  | (k', v') :: m' =>
      if (k' <? fst kv)%float then (k', v') :: insert m' kv
      else if (fst kv <? k')%float then kv :: (k', v') :: m'
      else (k', v') :: m'
  end.

End StdMapInsert.

(** ** FinLiftDragPrivateData: reading the coefficient tables *)

Module FinLiftDragData.

Import StdMap StdMapInsert Sdf FinLiftDragPlugin.

(** The loop of [createSpline] that looks for the parameter among the
    siblings, from the first child on. *)
Fixpoint search (siblings : list Element) (_sdfParam : string)
  : option Element :=
  match siblings with
  | [] => None
  | elem :: next =>
      if negb (String.eqb (GetName elem) _sdfParam)
      then search next _sdfParam
      else Some elem
  end.

(** The loop of [createSpline] over the entries of the parameter. *)
Fixpoint collect (siblings : list Element) (points : map) : map :=
  match siblings with
  | [] => points
  | childEntry :: next =>
      let points :=
        if String.eqb (GetName childEntry) "spline_point" then
          let angleOfAttack := Get_double childEntry "angle" in
          let coeff := Get_double childEntry "coeff" in
          insert points (angleOfAttack, coeff)
        else points in
      collect next points
  end.

(** [FinLiftDragPrivateData::createSpline]: the table, and
    [validConfig] as the call leaves it. *)
Definition createSpline (validConfig : bool) (_sdf : Element)
    (_sdfParam : string) : map * bool :=
  if negb (HasElement _sdf _sdfParam) then ([], false)
  else
    match GetFirstElement _sdf with
    | None => ([], false)
    | Some _ =>
        match search (children _sdf) _sdfParam with
        | None => ([], false)
        | Some elem => (collect (children elem) [], validConfig)
        end
    end.

(** [FinLiftDragPrivateData::Configure] *)
Definition Configure (self : FinLiftDragPrivateData) (_entity : Entity)
    (_sdf : Element) : FinLiftDragPrivateData :=
  let '(points, valid) := createSpline (validConfig self) _sdf "drag_coeffs" in
  {| splineCd := points;
     splineCl := splineCl self;
     forward := forward self;
     upward := upward self;
     linkEntity := linkEntity self;
     model := _entity;
     validConfig := valid |}.

(** The (angle, coefficient) pairs of the [spline_point] entries of an
    element, in document order. *)
Definition spline_points (elem : Element) : list (float * float) :=
  List.map (fun c => (Get_double c "angle", Get_double c "coeff"))
    (filter (fun c => String.eqb (GetName c) "spline_point") (children elem)).

End FinLiftDragData.

(** ** TethysCommPlugin::SetupEntities *)

Module TethysSetup.

Import Msgs TethysCommPlugin.

(** The component types the set-up asks for. *)
Inductive ComponentKind := AngularVelocity | WorldAngularVelocity | WorldPose.

(** Queries and updates of the entity-component manager used at
    set-up: [Model::LinkByName], the test [_ecm.Component<T>(entity)]
    for a component and [_ecm.CreateComponent(entity, T())]. *)
Class GzEcm `{GzSim} := {
  LinkByName : Entity -> ECM -> string -> Entity;
  HasComponent : ComponentKind -> Entity -> ECM -> bool;
  CreateComponent : ComponentKind -> Entity -> ECM -> ECM
}.

(** The link names the plugin keeps besides the members of [Plugin]. *)
Record LinkNames := {
  baseLinkName : string;
  thrusterLinkName : string;
  rudderLinkName : string;
  elevatorLinkName : string
}.

(** [AddAngularVelocityComponent] *)
Definition AddAngularVelocityComponent `{GzEcm} (_entity : Entity)
    (_ecm : ECM) : ECM :=
  let _ecm :=
    if negb (HasComponent AngularVelocity _entity _ecm)
    then CreateComponent AngularVelocity _entity _ecm
    else _ecm in
  if negb (HasComponent WorldAngularVelocity _entity _ecm)
  then CreateComponent WorldAngularVelocity _entity _ecm
  else _ecm.

(** [AddWorldPose]: the same test and creation, twice. *)
Definition AddWorldPose `{GzEcm} (_entity : Entity) (_ecm : ECM) : ECM :=
  let _ecm :=
    if negb (HasComponent WorldPose _entity _ecm)
    then CreateComponent WorldPose _entity _ecm
    else _ecm in
  if negb (HasComponent WorldPose _entity _ecm)
  then CreateComponent WorldPose _entity _ecm
  else _ecm.

Definition set_links `{GzMath} (self : Plugin)
    (model_ rudder elevator thruster : Entity) : Plugin :=
  {| commandTopic := commandTopic self; stateTopic := stateTopic self;
     rudderTopic := rudderTopic self; elevatorTopic := elevatorTopic self;
     thrusterTopic := thrusterTopic self; statePub := statePub self;
     rudderPub := rudderPub self; elevatorPub := elevatorPub self;
     thrusterPub := thrusterPub self;
     modelLink := model_; rudderLink := rudder;
     elevatorLink := elevator; thrusterLink := thruster;
     sphericalCoords := sphericalCoords self;
     prevPubPrintTime := prevPubPrintTime self;
     prevSubPrintTime := prevSubPrintTime self |}.

(** [TethysCommPlugin::SetupEntities] *)
Definition SetupEntities `{GzMath} `{GzEcm} (names : LinkNames)
    (self : Plugin) (_entity : Entity) (_sdf : WorldCommPlugin.SdfElement)
    (_ecm : ECM) : LinkNames * Plugin * ECM :=
  let names :=
    if WorldCommPlugin.HasElement _sdf "model_link" then
      {| baseLinkName := WorldCommPlugin.Get _sdf "model_link";
         thrusterLinkName := thrusterLinkName names;
         rudderLinkName := rudderLinkName names;
         elevatorLinkName := elevatorLinkName names |}
    else names in
  let names :=
    if WorldCommPlugin.HasElement _sdf "propeller_link" then
      {| baseLinkName := baseLinkName names;
         thrusterLinkName := WorldCommPlugin.Get _sdf "propeller_link";
         rudderLinkName := rudderLinkName names;
         elevatorLinkName := elevatorLinkName names |}
    else names in
  let names :=
    if WorldCommPlugin.HasElement _sdf "rudder_link" then
      {| baseLinkName := baseLinkName names;
         thrusterLinkName := thrusterLinkName names;
         rudderLinkName := rudderLinkName names;
         elevatorLinkName := WorldCommPlugin.Get _sdf "rudder_link" |}
    else names in
  let names :=
    if WorldCommPlugin.HasElement _sdf "elavator_link" then
      {| baseLinkName := baseLinkName names;
         thrusterLinkName := WorldCommPlugin.Get _sdf "elavator_link";
         rudderLinkName := rudderLinkName names;
         elevatorLinkName := elevatorLinkName names |}
    else names in
  let self :=
    set_links self
      (LinkByName _entity _ecm (baseLinkName names))
      (LinkByName _entity _ecm (rudderLinkName names))
      (LinkByName _entity _ecm (elevatorLinkName names))
      (LinkByName _entity _ecm (thrusterLinkName names)) in
  let _ecm := AddAngularVelocityComponent (thrusterLink self) _ecm in
  let _ecm := AddWorldPose (modelLink self) _ecm in
  let _ecm := AddWorldPose (rudderLink self) _ecm in
  let _ecm := AddWorldPose (elevatorLink self) _ecm in
  (names, self, _ecm).

End TethysSetup.

(** ** Reading the log of service calls *)

Module ServiceLog.

Import Msgs WorldCommPlugin.

Definition is_create (c : ServiceCall) : bool :=
  match request c with
  | ReqEntityFactory _ => true
  | _ => false
  end.

Definition is_performer (c : ServiceCall) : bool :=
  match request c with
  | ReqStringMsg _ => true
  | _ => false
  end.

Definition has_id (_msg : LRAUVInit) : bool :=
  match id_ _msg with
  | Some _ => true
  | None => false
  end.

(** The service of the plugin that a request message belongs to. *)
Definition service_for (self : Plugin) (req : RequestMsg) : string :=
  match req with
  | ReqSphericalCoordinates _ => setSphericalCoordsService self
  | ReqEntityFactory _ => createService self
  | ReqStringMsg _ => performerService self
  end.

End ServiceLog.

(** A world that has its spherical coordinates set in the SDF. *)
Module ExampleWorld.

Definition sim : GzSim :=
  {| ECM := unit;
     worldPose := fun _ _ =>
       {| Pos := ExampleHost.origin; Rot := ExampleHost.identity |};
     WorldLinearVelocity := fun _ _ => None;
     WorldAngularVelocity := fun _ _ => None;
     worldEntity := fun _ _ => 1;
     WorldName := fun _ _ => Some "buoyant_tethys";
     hasSphericalCoordinates := fun _ _ => true;
     AsValidTopic := fun name => name |}.

(** A world plugin as constructed, before [Configure]. *)
Definition unconfigured : WorldCommPlugin.Plugin :=
  {| WorldCommPlugin.spawnTopic := "lrauv/init";
     WorldCommPlugin.createService := EmptyString;
     WorldCommPlugin.performerService := EmptyString;
     WorldCommPlugin.setSphericalCoordsService := EmptyString;
     WorldCommPlugin.hasWorldLatLon := false;
     WorldCommPlugin.node :=
       {| WorldCommPlugin.accepts := fun _ => true;
          WorldCommPlugin.subscribable := fun _ => true;
          WorldCommPlugin.calls := [];
          WorldCommPlugin.subscriptions := [] |} |}.

End ExampleWorld.

(** [<] on the specification of doubles, as a proposition. *)
Definition SFlt (x y : spec_float) : Prop :=
  match x, y with
  | S754_nan, _ | _, S754_nan => False
  | S754_infinity s1, S754_infinity s2 => s1 = true /\ s2 = false
  | S754_infinity s, _ => s = true
  | _, S754_infinity s => s = false
  | S754_finite s _ _, S754_zero _ => s = true
  | S754_zero _, S754_finite s _ _ => s = false
  | S754_zero _, S754_zero _ => False
  | S754_finite s1 m1 e1, S754_finite s2 m2 e2 =>
      match s1, s2 with
      | true, false => True
      | false, true => False
      | false, false => e1 < e2 \/ (e1 = e2 /\ Z.pos m1 < Z.pos m2)
      | true, true => e2 < e1 \/ (e1 = e2 /\ Z.pos m2 < Z.pos m1)
      end
  end.

(** ** Runs of the command callback *)

Module TethysRun.

Import Msgs TethysCommPlugin.

(** The plugin after a sequence of commands, one callback after the
    other. *)
Definition commands `{GzMath} `{FloatToInt} (self : Plugin)
    (msgs : list LRAUVCommand) : Plugin :=
  fold_left (fun s _msg => fst (CommandCallback s _msg)) msgs self.

End TethysRun.

(** ** A vehicle to set up

    Link look-up and component creation on the store of
    [ExampleHost], and a store in which the vehicle moves. *)

Module ExampleSetup.

Import TethysSetup.

Definition link_of_name (name : string) : Entity :=
  if String.eqb name "base_link" then 2
  else if String.eqb name "propeller" then 3
  else if String.eqb name "vertical_fins" then 4
  else if String.eqb name "horizontal_fins" then 5
  else kNullEntity.

Definition ecm_ops : @GzEcm ExampleHost.sim :=
  {| LinkByName := fun _ _ name => link_of_name name;
     HasComponent := fun kind e (ecm : @ECM ExampleHost.sim) =>
       match kind with
       | AngularVelocity =>
           match ExampleHost.comp_AngularVelocity (ecm e) with
           | Some _ => true | None => false
           end
       | WorldAngularVelocity =>
           match ExampleHost.comp_WorldAngularVelocity (ecm e) with
           | Some _ => true | None => false
           end
       | WorldPose => true
       end;
     CreateComponent := fun kind e (ecm : @ECM ExampleHost.sim) =>
       fun e' =>
         if Z.eqb e' e then
           {| ExampleHost.comp_WorldPose := ExampleHost.comp_WorldPose (ecm e');
              ExampleHost.comp_WorldLinearVelocity :=
                ExampleHost.comp_WorldLinearVelocity (ecm e');
              ExampleHost.comp_AngularVelocity :=
                match kind with
                | AngularVelocity => Some ExampleHost.origin
                | _ => ExampleHost.comp_AngularVelocity (ecm e')
                end;
              ExampleHost.comp_WorldAngularVelocity :=
                match kind with
                | WorldAngularVelocity => Some ExampleHost.origin
                | _ => ExampleHost.comp_WorldAngularVelocity (ecm e')
                end |}
         else ecm e' |}.

Definition names : LinkNames :=
  {| baseLinkName := "base_link";
     thrusterLinkName := "propeller";
     rudderLinkName := "vertical_fins";
     elevatorLinkName := "horizontal_fins" |}.

(** The vehicle under way, 12.5 m below the surface: every link has
    its velocities. *)
Definition moving_ecm : Entity -> ExampleHost.Components :=
  fun _ =>
    {| ExampleHost.comp_WorldPose :=
         {| Pos := {| X := 1; Y := 2; Z_ := -12.5 |};
            Rot := ExampleHost.identity |};
       ExampleHost.comp_WorldLinearVelocity :=
         Some {| X := 3; Y := 0; Z_ := 4 |};
       ExampleHost.comp_AngularVelocity :=
         Some {| X := 30; Y := 0; Z_ := 0 |};
       ExampleHost.comp_WorldAngularVelocity :=
         Some {| X := 30; Y := 0; Z_ := 0 |} |}.

End ExampleSetup.

(** * Part II: properties *)

(** ** Binary64 arithmetic *)

Lemma iter_pos_invariant {A : Type} (P : A -> Prop) (f : A -> A) :
  (forall x, P x -> P (f x)) ->
  forall p x, P x -> P (iter_pos f p x).
Proof.
  intros Hf p; induction p as [p IH | p IH |]; intros x Hx; simpl.
  - apply IH, IH, Hf, Hx.
  - apply IH, IH, Hx.
  - apply Hf, Hx.
Qed.

Lemma shr_1_nonneg mrs : 0 <= shr_m mrs -> 0 <= shr_m (shr_1 mrs).
Proof.
  destruct mrs as [m r s]; simpl.
  destruct m as [| [p | p |] | [p | p |]]; simpl; lia.
Qed.

Lemma shr_fexp_nonneg m e l :
  0 <= m -> 0 <= shr_m (fst (shr_fexp prec emax m e l)).
Proof.
  intros Hm. unfold shr_fexp, shr.
  assert (H0 : 0 <= shr_m (shr_record_of_loc m l))
    by (destruct l as [| []]; exact Hm).
  destruct (fexp prec emax (Zdigits2 m + e) - e) as [| p | p]; simpl; auto.
  apply (iter_pos_invariant (fun r => 0 <= shr_m r)); auto using shr_1_nonneg.
Qed.

Lemma round_nearest_even_nonneg m l :
  0 <= m -> 0 <= round_nearest_even m l.
Proof.
  intros Hm. destruct l as [| []]; simpl; try lia.
  destruct (Z.even m); lia.
Qed.

(** Rounding a non-negative significand keeps the sign it is given:
    the result is a zero, a finite number or an infinity of sign [s]. *)
Lemma binary_round_aux_sign s m e l :
  0 <= m -> SFsign (binary_round_aux prec emax s m e l) = Some s.
Proof.
  intros Hm. unfold binary_round_aux.
  pose proof (shr_fexp_nonneg m e l Hm) as H1.
  destruct (shr_fexp prec emax m e l) as [mrs' e'].
  simpl in H1.
  pose proof (shr_fexp_nonneg _ e' loc_Exact
                (round_nearest_even_nonneg _ (loc_of_shr_record mrs') H1)) as H2.
  destruct (shr_fexp prec emax _ e' loc_Exact) as [mrs'' e''].
  simpl in H2.
  destruct (shr_m mrs'') as [| p | p]; try reflexivity; try lia.
  destruct (e'' <=? emax - prec); reflexivity.
Qed.

(** Rounding is symmetric in the sign. *)
Lemma binary_round_aux_opp s m e l :
  binary_round_aux prec emax (negb s) m e l
  = SFopp (binary_round_aux prec emax s m e l).
Proof.
  unfold binary_round_aux.
  destruct (shr_fexp prec emax m e l) as [mrs' e'].
  destruct (shr_fexp prec emax _ e' loc_Exact) as [mrs'' e''].
  destruct (shr_m mrs''); try reflexivity.
  destruct (e'' <=? emax - prec); reflexivity.
Qed.

Lemma SFmul_opp_l x y :
  SFmul prec emax (SFopp x) y = SFopp (SFmul prec emax x y).
Proof.
  destruct x as [sx | sx | | sx mx ex], y as [sy | sy | | sy my ey];
    simpl; try reflexivity;
    try (destruct sx, sy; reflexivity).
  rewrite <- binary_round_aux_opp. destruct sx, sy; reflexivity.
Qed.

Lemma SFopp_involutive x : SFopp (SFopp x) = x.
Proof. destruct x as [s | s | | s m e]; simpl; now rewrite ?negb_involutive. Qed.

Lemma opp_involutive (x : float) : (- - x)%float = x.
Proof.
  apply Prim2SF_inj. now rewrite !opp_spec, SFopp_involutive.
Qed.

Lemma mul_opp_l (x y : float) : (- x * y)%float = (- (x * y))%float.
Proof.
  apply Prim2SF_inj.
  rewrite mul_spec, !opp_spec, mul_spec. apply SFmul_opp_l.
Qed.

(** *** Multiplying by [-1.0] is exact *)

Lemma Zdigits2_xO p : Z.pos (digits2_pos p~0) = Z.pos (digits2_pos p) + 1.
Proof. simpl. lia. Qed.

Lemma digits2_two52 m :
  Z.pos (digits2_pos (two52 * m)) = Z.pos (digits2_pos m) + 52.
Proof.
  unfold two52. cbn [Pos.mul].
  repeat rewrite Zdigits2_xO. lia.
Qed.

Lemma iter_shr_two52 m :
  iter_pos shr_1 52 (Build_shr_record (Z.pos (two52 * m)) false false)
  = Build_shr_record (Z.pos m) false false.
Proof. reflexivity. Qed.

Lemma binary_round_aux_scaled s m e :
  bounded prec emax m e = true ->
  binary_round_aux prec emax s (Z.pos (two52 * m)) (e + -52) loc_Exact
  = S754_finite s m e.
Proof.
  unfold bounded, canonical_mantissa. intros Hb.
  apply andb_prop in Hb as [Hc He]. apply Z.eqb_eq in Hc.
  unfold binary_round_aux, shr_fexp.
  cbn [Zdigits2 shr_record_of_loc]. rewrite digits2_two52.
  replace (Z.pos (digits2_pos m) + 52 + (e + -52))
    with (Z.pos (digits2_pos m) + e) by lia.
  rewrite Hc.
  replace (e - (e + -52)) with 52 by lia.
  cbn [shr]. rewrite iter_shr_two52.
  replace (e + -52 + 52) with e by lia.
  cbn [shr_m loc_of_shr_record round_nearest_even Zdigits2 shr_record_of_loc].
  rewrite Hc, Z.sub_diag. cbn [shr shr_m].
  now rewrite He.
Qed.

Lemma Prim2SF_m1 : Prim2SF (-1)%float = S754_finite true two52 (-52).
Proof. reflexivity. Qed.

Lemma mul_m1 (x : float) : (x * -1)%float = (- x)%float.
Proof.
  apply Prim2SF_inj. rewrite mul_spec, opp_spec, Prim2SF_m1.
  pose proof (Prim2SF_valid x) as Hv.
  destruct (Prim2SF x) as [s | s | | s m e]; simpl in *;
    rewrite ?xorb_true_r; try reflexivity.
  rewrite Pos.mul_comm. now apply binary_round_aux_scaled.
Qed.

(** *** Comparisons *)

Lemma SFcompare_refl x : SFcompare x x = Some Eq \/ SFcompare x x = None.
Proof.
  destruct x as [s | s | | s m e]; simpl; auto.
  - destruct s; auto.
  - left. destruct s; rewrite Z.compare_refl, Pos.compare_cont_refl; reflexivity.
Qed.

Lemma ltb_irrefl (x : float) : (x <? x)%float = false.
Proof.
  rewrite ltb_spec. unfold SFltb.
  destruct (SFcompare_refl (Prim2SF x)) as [-> | ->]; reflexivity.
Qed.

(** A number strictly above [0.0] is a positive finite number or [+oo]. *)
Lemma ltb_zero_pos (x : float) :
  (0 <? x)%float = true ->
  SFsign (Prim2SF x) = Some false /\ is_zero_sf (Prim2SF x) = false.
Proof.
  rewrite ltb_spec. change (Prim2SF 0) with (S754_zero false).
  unfold SFltb. destruct (Prim2SF x) as [s | s | | s m e]; simpl;
    try discriminate; destruct s; try discriminate; auto.
Qed.

(** A number with the sign bit set compares below or equal to [0.0]. *)
Lemma leb_zero_of_sign (x : float) :
  SFsign (Prim2SF x) = Some true -> (x <=? 0)%float = true.
Proof.
  rewrite leb_spec. change (Prim2SF 0) with (S754_zero false).
  unfold SFleb. destruct (Prim2SF x) as [s | s | | s m e]; simpl;
    try discriminate; intros [= ->]; reflexivity.
Qed.

(** *** Signs of quotients and products *)

Lemma SFdiv_core_nonneg mx ex my ey :
  0 <= fst (fst (SFdiv_core_binary prec emax (Z.pos mx) ex (Z.pos my) ey)).
Proof.
  unfold SFdiv_core_binary.
  set (s := _ - _ - _).
  set (m' := match s with Z0 => _ | Z.pos _ => _ | Z.neg _ => _ end).
  assert (Hm : 0 <= m').
  { subst m'. destruct s; try lia. apply Z.shiftl_nonneg. lia. }
  pose proof (Z.div_pos m' (Z.pos my) Hm ltac:(lia)) as Hq.
  unfold Z.div in Hq. destruct (Z.div_eucl m' (Z.pos my)) as [q r].
  exact Hq.
Qed.

(** Dividing a positive number by a positive finite number gives a
    number with a clear sign bit that is not a NaN. *)
Lemma SFdiv_pos_sign x my ey :
  SFsign x = Some false -> is_zero_sf x = false ->
  SFsign (SFdiv prec emax x (S754_finite false my ey)) = Some false.
Proof.
  destruct x as [s | s | | s m e]; simpl; try discriminate;
    intros [= ->] _; try reflexivity.
  pose proof (SFdiv_core_nonneg m e my ey) as Hq.
  destruct (SFdiv_core_binary prec emax (Z.pos m) e (Z.pos my) ey) as [[mz ez] lz].
  apply binary_round_aux_sign. exact Hq.
Qed.

Lemma SFmul_finite_sign x sx sy my ey :
  SFsign x = Some sx ->
  SFsign (SFmul prec emax x (S754_finite sy my ey)) = Some (xorb sx sy).
Proof.
  destruct x as [s | s | | s m e]; simpl; try discriminate;
    intros [= ->]; try reflexivity.
  apply binary_round_aux_sign. lia.
Qed.

(** [(c * a) * a] for a negative finite [c] and an [a] with a clear
    sign bit: the sign bit of the result is set, and it is no NaN. *)
Lemma SFmul_neg_sq_sign mc ec a :
  SFsign a = Some false ->
  SFsign (SFmul prec emax (SFmul prec emax (S754_finite true mc ec) a) a)
  = Some true.
Proof.
  destruct a as [s | s | | s m e]; simpl; try discriminate;
    intros [= ->]; try reflexivity.
  apply (SFmul_finite_sign _ true false).
  apply binary_round_aux_sign. lia.
Qed.

(** ** The coefficient table lookup *)

Import StdMap.

(** In an ordered table, the lower bound of a tabulated key is the
    position of its entry. *)
Lemma lower_bound_hit (m : map) (a v : float) :
  is_ordered m = true -> In (a, v) m ->
  deref m (lower_bound m a) = Some (a, v).
Proof.
  induction m as [| [k' v'] m' IH]; simpl; intros Hord Hin.
  - contradiction.
  - apply andb_prop in Hord as [Hhead Htail].
    destruct Hin as [Heq | Hin].
    + injection Heq as -> ->. now rewrite ltb_irrefl.
    + rewrite forallb_forall in Hhead.
      pose proof (Hhead _ Hin) as Hk. simpl in Hk.
      rewrite Hk. simpl. auto.
Qed.

Lemma deref_Some_lt (m : map) (it : iterator) (kv : float * float) :
  deref m it = Some kv -> (it < end_ m)%nat.
Proof.
  unfold deref, end_. intros H. apply nth_error_Some. congruence.
Qed.

Lemma find_hit (m : map) (a v : float) :
  is_ordered m = true -> In (a, v) m ->
  deref m (find m a) = Some (a, v) /\ count m a = 1%nat.
Proof.
  intros Hord Hin.
  pose proof (lower_bound_hit m a v Hord Hin) as Hlb.
  pose proof (deref_Some_lt _ _ _ Hlb) as Hlt.
  unfold count, find. rewrite Hlb, ltb_irrefl. split; [exact Hlb |].
  destruct (Nat.eqb_spec (lower_bound m a) (end_ m)); [lia | reflexivity].
Qed.

(** Without an entry equivalent to the query, no [return] statement is
    reached. *)
Lemma interpolate_miss (m : map) (a : float) :
  count m a = 0%nat ->
  FinLiftDragPlugin.interpolate m a = FinLiftDragPlugin.NoReturnStatement
  \/ FinLiftDragPlugin.interpolate m a = FinLiftDragPlugin.InvalidIterator.
Proof.
  unfold FinLiftDragPlugin.interpolate. intros ->. simpl.
  destruct (Nat.eqb _ _);
    match goal with
    | |- context [match ?d with Some _ => _ | None => _ end] =>
        destruct d as [[? ?] |]
    end; auto; destruct (prev _); auto.
Qed.

(** Past the last tabulated angle of a table that is not empty, the
    body runs to its closing brace. *)
Lemma interpolate_past_last (m : map) (a : float) :
  count m a = 0%nat -> m <> [] -> upper_bound m a = end_ m ->
  FinLiftDragPlugin.interpolate m a = FinLiftDragPlugin.NoReturnStatement.
Proof.
  unfold FinLiftDragPlugin.interpolate. intros -> Hne ->. simpl.
  rewrite Nat.eqb_refl.
  destruct m as [| [k v] m']; [contradiction | reflexivity].
Qed.

(** A returned value is the coefficient of an entry whose key is
    equivalent to the query. *)
Lemma interpolate_Returns_inv (m : map) (a v : float) :
  FinLiftDragPlugin.interpolate m a = FinLiftDragPlugin.Returns v ->
  exists k, In (k, v) m /\ (k <? a)%float = false /\ (a <? k)%float = false.
Proof.
  destruct (count m a) as [| n] eqn:Hc.
  - destruct (interpolate_miss _ _ Hc) as [-> | ->]; discriminate.
  - unfold FinLiftDragPlugin.interpolate. rewrite Hc. simpl.
    unfold count in Hc. destruct (Nat.eqb_spec (find m a) (end_ m)) as [| Hne];
      [discriminate |].
    unfold find in *.
    destruct (deref m (lower_bound m a)) as [[k w] |] eqn:Hd; [| congruence].
    destruct (a <? k)%float eqn:Hak; [congruence |].
    rewrite Hd. simpl. intros [= ->]. exists k. repeat split; auto.
    + eapply nth_error_In. exact Hd.
    + clear - Hd. revert Hd. unfold deref.
      induction m as [| [k' v'] m' IH]; simpl; [discriminate |].
      destruct (k' <? a)%float eqn:Hk; simpl; auto.
      now intros [= -> _].
Qed.

(** C7: in a table that satisfies the ordering invariant of
    [std::map], a query angle that is one of the tabulated angles makes
    [interpolate] return the coefficient stored for that angle. *)
Theorem interpolate_exact_hit (m : map) (a v : float) :
  is_ordered m = true -> In (a, v) m ->
  FinLiftDragPlugin.interpolate m a = FinLiftDragPlugin.Returns v.
Proof.
  intros Hord Hin.
  destruct (find_hit m a v Hord Hin) as [Hd Hc].
  unfold FinLiftDragPlugin.interpolate. rewrite Hc, Hd. reflexivity.
Qed.

Lemma interpolate_exact_hit_witness :
  FinLiftDragPlugin.interpolate
    [(-0.5, 0.25); (0, 0.1); (0.5, 0.3)]%float 0%float
  = FinLiftDragPlugin.Returns 0.1%float.
Proof.
  apply (interpolate_exact_hit [(-0.5, 0.25); (0, 0.1); (0.5, 0.3)]%float
           0%float 0.1%float).
  - reflexivity.
  - simpl. auto.
Defined.

(** C6: on the one-entry table [{0.0 -> 1.0}] the query [0.5], which
    lies past the last tabulated angle, makes [interpolate] reach its
    closing brace without returning a value; so does a query strictly
    between two tabulated angles. *)
Theorem interpolate_off_table_no_result :
  FinLiftDragPlugin.interpolate [(0, 1)]%float 0.5%float
  = FinLiftDragPlugin.NoReturnStatement
  /\ FinLiftDragPlugin.interpolate [(0, 1); (1, 2)]%float 0.5%float
     = FinLiftDragPlugin.NoReturnStatement.
Proof.
  split.
  - apply interpolate_past_last; [reflexivity | discriminate | reflexivity].
  - reflexivity.
Qed.

(** ** FinLiftDragPlugin::PreUpdate *)

(** C8: [PreUpdate] hands back the plugin data and the
    entity-component state it was given and emits nothing, on every
    step of a run and whatever the type of states is. *)
Theorem FinLiftDrag_PreUpdate_no_effect (ECM Action : Type)
    (self : FinLiftDragPlugin.FinLiftDragPrivateData)
    (steps : list UpdateInfo) (_ecm : ECM) :
  (forall _info,
     @FinLiftDragPlugin.PreUpdate ECM Action self _info _ecm = (self, _ecm, []))
  /\ @FinLiftDragPlugin.PreUpdate_steps ECM Action self steps _ecm
     = (self, _ecm, []).
Proof.
  split; [reflexivity |].
  induction steps as [| _info steps' IH]; simpl.
  - reflexivity.
  - now rewrite IH.
Qed.

(** ** TethysCommPlugin::CommandCallback *)

Import Msgs.

Lemma leb_zero_not_ltb (a : float) :
  (0 <=? a)%float = true -> (a <? 0)%float = false.
Proof.
  rewrite leb_spec, ltb_spec. change (Prim2SF 0) with (S754_zero false).
  unfold SFleb, SFltb.
  destruct (Prim2SF a) as [s | s | | s m e]; simpl;
    try reflexivity; destruct s; simpl; try reflexivity; discriminate.
Qed.

Lemma sign_clear_not_ltb (a : float) :
  SFsign (Prim2SF a) = Some false -> (a <? 0)%float = false.
Proof.
  rewrite ltb_spec. change (Prim2SF 0) with (S754_zero false).
  unfold SFltb.
  destruct (Prim2SF a) as [s | s | | s m e]; simpl;
    try discriminate; intros [= ->]; reflexivity.
Qed.

(** The quotient of a commanded speed above zero by [60*2*pi] has a
    clear sign bit and is no NaN. *)
Lemma angVel_of_pos_sign (omega : float) :
  (0 <? omega)%float = true ->
  SFsign (Prim2SF (TethysCommPlugin.angVel_of omega)) = Some false.
Proof.
  intros Hpos. destruct (ltb_zero_pos omega Hpos) as [Hs Hz].
  unfold TethysCommPlugin.angVel_of. rewrite div_spec.
  assert (Hc : exists mc ec,
             Prim2SF (120 * M_PI)%float = S754_finite false mc ec)
    by (vm_compute; eauto).
  destruct Hc as (mc & ec & ->).
  now apply SFdiv_pos_sign.
Qed.

Lemma publishers_after_print (H : GzMath) (self : TethysCommPlugin.Plugin)
    (pub sub : duration) :
  TethysCommPlugin.rudderPub (TethysCommPlugin.set_printTimes self pub sub)
  = TethysCommPlugin.rudderPub self /\
  TethysCommPlugin.elevatorPub (TethysCommPlugin.set_printTimes self pub sub)
  = TethysCommPlugin.elevatorPub self /\
  TethysCommPlugin.thrusterPub (TethysCommPlugin.set_printTimes self pub sub)
  = TethysCommPlugin.thrusterPub self.
Proof. repeat split. Qed.

(** The callback publishes three messages, through the three control
    publishers in the order rudder, elevator, thruster. *)
Lemma CommandCallback_publications (H : GzMath) (C : FloatToInt)
    (self : TethysCommPlugin.Plugin) (_msg : LRAUVCommand) :
  snd (TethysCommPlugin.CommandCallback self _msg) =
  [ TethysCommPlugin.PublishDouble (TethysCommPlugin.rudderPub self)
      {| data := rudderAngleAction_ _msg |};
    TethysCommPlugin.PublishDouble (TethysCommPlugin.elevatorPub self)
      {| data := elevatorAngleAction_ _msg |};
    TethysCommPlugin.PublishDouble (TethysCommPlugin.thrusterPub self)
      {| data := TethysCommPlugin.thrust_force (propOmegaAction_ _msg) |} ].
Proof.
  unfold TethysCommPlugin.CommandCallback.
  destruct (milliseconds 1000 <? _); reflexivity.
Qed.

(** C4: for every command, the callback publishes through the rudder
    publisher a Double message holding [rudderAngleAction_] as it is,
    and through the elevator publisher one holding
    [elevatorAngleAction_] as it is; [SetupControlTopics] binds these
    publishers to the rudder and the elevator topic. *)
Theorem CommandCallback_rudder_elevator (H : GzMath) (C : FloatToInt)
    (self : TethysCommPlugin.Plugin) (_msg : LRAUVCommand) :
  (exists self' thrusterPublication,
     TethysCommPlugin.CommandCallback self _msg =
     (self',
      [ TethysCommPlugin.PublishDouble (TethysCommPlugin.rudderPub self)
          {| data := rudderAngleAction_ _msg |};
        TethysCommPlugin.PublishDouble (TethysCommPlugin.elevatorPub self)
          {| data := elevatorAngleAction_ _msg |};
        thrusterPublication ]))
  /\ TethysCommPlugin.pub_topic
       (TethysCommPlugin.rudderPub (TethysCommPlugin.SetupControlTopics self))
     = TethysCommPlugin.rudderTopic self
  /\ TethysCommPlugin.pub_topic
       (TethysCommPlugin.elevatorPub (TethysCommPlugin.SetupControlTopics self))
     = TethysCommPlugin.elevatorTopic self.
Proof.
  split; [| split; reflexivity].
  pose proof (CommandCallback_publications H C self _msg) as Hout.
  destruct (TethysCommPlugin.CommandCallback self _msg) as [self' out].
  simpl in Hout. subst out. eauto.
Qed.

(** The force for a speed that is not below zero. *)
Lemma thrust_force_nonneg_speed (omega : float) :
  let a := (omega / (60 * 2 * M_PI))%float in
  (0 <=? a)%float = true ->
  TethysCommPlugin.thrust_force omega = (-7.879 * 1000 * 0.0016 * a * a)%float.
Proof.
  intros a Ha. unfold TethysCommPlugin.thrust_force.
  change (TethysCommPlugin.angVel_of omega) with a.
  cbv zeta. now rewrite (leb_zero_not_ltb a Ha).
Qed.

(** The force for a speed below zero: the sign flips, the magnitude is
    computed by the same products. *)
Lemma thrust_force_neg_speed (omega : float) :
  let a := (omega / (60 * 2 * M_PI))%float in
  (a <? 0)%float = true ->
  TethysCommPlugin.thrust_force omega = (7.879 * 1000 * 0.0016 * a * a)%float.
Proof.
  intros a Ha. unfold TethysCommPlugin.thrust_force.
  change (TethysCommPlugin.angVel_of omega) with a.
  cbv zeta. rewrite Ha, mul_m1.
  change (-7.879 * 1000 * 0.0016)%float with (- (7.879 * 1000 * 0.0016))%float.
  rewrite !mul_opp_l. apply opp_involutive.
Qed.

(** The force for a commanded speed above zero is at most zero. *)
Lemma thrust_force_pos_omega (omega : float) :
  (0 <? omega)%float = true ->
  (TethysCommPlugin.thrust_force omega <=? 0)%float = true.
Proof.
  intros Hpos. pose proof (angVel_of_pos_sign omega Hpos) as Hs.
  unfold TethysCommPlugin.thrust_force. cbv zeta.
  rewrite (sign_clear_not_ltb _ Hs).
  apply leb_zero_of_sign.
  rewrite !mul_spec.
  assert (Hc : exists mc ec,
             Prim2SF (-7.879 * 1000 * 0.0016)%float = S754_finite true mc ec)
    by (vm_compute; eauto).
  rewrite <- !mul_spec, mul_spec, (mul_spec _ (TethysCommPlugin.angVel_of omega)).
  destruct Hc as (mc & ec & ->).
  now apply SFmul_neg_sq_sign.
Qed.

(** C9: the thruster publisher that [SetupControlTopics] leaves in the
    plugin advertises the thruster topic; and for every command, the
    third and last publication of [CommandCallback] goes through the
    plugin's thruster publisher and carries, with
    [a = propOmegaAction_ / (60*2*pi)], the value
    [-7.879*1000*0.0016*a*a] when [a >= 0] and [7.879*1000*0.0016*a*a]
    when [a < 0] (binary64 products, taken left to right as the code
    takes them); that value is at most zero when the commanded speed is
    above zero.  So a plugin set up by [SetupControlTopics] publishes
    the force on the thruster topic. *)
Theorem CommandCallback_thruster_force (H : GzMath) (C : FloatToInt)
    (self : TethysCommPlugin.Plugin) (_msg : LRAUVCommand) :
  let a := (propOmegaAction_ _msg / (60 * 2 * M_PI))%float in
  TethysCommPlugin.pub_topic
    (TethysCommPlugin.thrusterPub (TethysCommPlugin.SetupControlTopics self))
  = TethysCommPlugin.thrusterTopic self
  /\ TethysCommPlugin.thrusterTopic (TethysCommPlugin.SetupControlTopics self)
     = TethysCommPlugin.thrusterTopic self
  /\ (exists self' rudderPublication elevatorPublication force,
        TethysCommPlugin.CommandCallback self _msg =
        (self',
         [ rudderPublication; elevatorPublication;
           TethysCommPlugin.PublishDouble (TethysCommPlugin.thrusterPub self)
             {| data := force |} ])
        /\ ((0 <=? a)%float = true ->
            force = (-7.879 * 1000 * 0.0016 * a * a)%float)
        /\ ((a <? 0)%float = true ->
            force = (7.879 * 1000 * 0.0016 * a * a)%float)
        /\ ((0 <? propOmegaAction_ _msg)%float = true ->
            (force <=? 0)%float = true))
  /\ (exists self' rudderPublication elevatorPublication force,
        TethysCommPlugin.CommandCallback
          (TethysCommPlugin.SetupControlTopics self) _msg =
        (self',
         [ rudderPublication; elevatorPublication;
           TethysCommPlugin.PublishDouble
             {| TethysCommPlugin.pub_topic := TethysCommPlugin.thrusterTopic self |}
             {| data := force |} ])
        /\ ((0 <=? a)%float = true ->
            force = (-7.879 * 1000 * 0.0016 * a * a)%float)
        /\ ((a <? 0)%float = true ->
            force = (7.879 * 1000 * 0.0016 * a * a)%float)).
Proof.
  intros a.
  split; [reflexivity |]. split; [reflexivity |]. split.
  - pose proof (CommandCallback_publications H C self _msg) as Hout.
    destruct (TethysCommPlugin.CommandCallback self _msg) as [self' out].
    simpl in Hout. subst out.
    do 3 eexists. exists (TethysCommPlugin.thrust_force (propOmegaAction_ _msg)).
    split; [reflexivity |].
    split; [apply thrust_force_nonneg_speed |].
    split; [apply thrust_force_neg_speed | apply thrust_force_pos_omega].
  - pose proof (CommandCallback_publications H C
                  (TethysCommPlugin.SetupControlTopics self) _msg) as Hout.
    destruct (TethysCommPlugin.CommandCallback
                (TethysCommPlugin.SetupControlTopics self) _msg) as [self' out].
    simpl in Hout. subst out.
    do 3 eexists. exists (TethysCommPlugin.thrust_force (propOmegaAction_ _msg)).
    split; [reflexivity |].
    split; [apply thrust_force_nonneg_speed | apply thrust_force_neg_speed].
Qed.

(** ** TethysCommPlugin::PostUpdate *)

(** The nanosecond part of the time stamp.  The code narrows the tick
    count to [int] before it subtracts the whole seconds; the result is
    the remainder all the same, for it is below [2^31]. *)
Lemma wrap32_small (z : Z) : - 2 ^ 31 <= z < 2 ^ 31 -> wrap32 z = z.
Proof.
  intros Hz. unfold wrap32. rewrite Z.mod_small; lia.
Qed.

Lemma wrap32_sub_wrap32 (a b : Z) : wrap32 (wrap32 a - b) = wrap32 (a - b).
Proof.
  unfold wrap32.
  replace (((a + 2 ^ 31) mod 2 ^ 32 - 2 ^ 31 - b + 2 ^ 31))
    with ((a + 2 ^ 31) mod 2 ^ 32 + (- b)) by lia.
  rewrite Z.add_mod_idemp_l by lia.
  f_equal. f_equal. lia.
Qed.

Lemma stamp_nsec_remainder (t : duration) :
  0 <= t ->
  wrap32 (wrap32 t - count_seconds t * 1000000000) = t mod 1000000000.
Proof.
  intros Ht. rewrite wrap32_sub_wrap32. unfold count_seconds.
  rewrite Z.quot_div_nonneg by lia.
  pose proof (Z.div_mod t 1000000000 ltac:(lia)) as Hdm.
  pose proof (Z.mod_pos_bound t 1000000000 ltac:(lia)) as Hb.
  replace (t - t / 1000000000 * 1000000000) with (t mod 1000000000) by lia.
  apply wrap32_small. lia.
Qed.

(** When both velocities are there, [PostUpdate] publishes one state
    message, through the state publisher, with the fields read from the
    entity-component manager. *)
Lemma PostUpdate_publishes_state (H : GzMath) (S : GzSim)
    (self : TethysCommPlugin.Plugin) (_info : UpdateInfo) (_ecm : ECM)
    (linVel angVel : Vector3d) :
  WorldLinearVelocity (TethysCommPlugin.modelLink self) _ecm = Some linVel ->
  WorldAngularVelocity (TethysCommPlugin.thrusterLink self) _ecm = Some angVel ->
  let model_pose := worldPose (TethysCommPlugin.modelLink self) _ecm in
  exists self' stateMsg,
    TethysCommPlugin.PostUpdate self _info _ecm =
    Some (self',
          [TethysCommPlugin.PublishState (TethysCommPlugin.statePub self) stateMsg])
    /\ depth_ stateMsg = (- Z_ (Pos model_pose))%float
    /\ rph_ stateMsg = Euler (Rot model_pose)
    /\ speed_ stateMsg = Length linVel
    /\ propOmega_ stateMsg = Length angVel.
Proof.
  intros Hlin Hang model_pose.
  unfold TethysCommPlugin.PostUpdate. rewrite Hlin, Hang.
  do 2 eexists. split; [reflexivity |]. repeat split.
Qed.

(** [PostUpdate] has a defined outcome exactly when both velocities are
    there. *)
Lemma PostUpdate_None_iff (H : GzMath) (S : GzSim)
    (self : TethysCommPlugin.Plugin) (_info : UpdateInfo) (_ecm : ECM) :
  TethysCommPlugin.PostUpdate self _info _ecm = None <->
  WorldLinearVelocity (TethysCommPlugin.modelLink self) _ecm = None \/
  WorldAngularVelocity (TethysCommPlugin.thrusterLink self) _ecm = None.
Proof.
  unfold TethysCommPlugin.PostUpdate.
  destruct (WorldLinearVelocity _ _) as [linVel |];
    destruct (WorldAngularVelocity _ _) as [angVel |]; split;
    try discriminate; intuition discriminate.
Qed.

(** C5: in the entity-component state that the plugin's own set-up
    leaves behind (world angular velocity created for the propeller
    link, no world linear velocity for the base link), [PostUpdate]
    reads the base link's velocity through an empty optional: no state
    message with a defined [speed_] comes out. *)
Theorem PostUpdate_without_linear_velocity :
  WorldAngularVelocity (GzSim := ExampleHost.sim)
    (TethysCommPlugin.thrusterLink ExampleHost.vehicle) ExampleHost.fresh_ecm
  = Some ExampleHost.origin
  /\ WorldLinearVelocity (GzSim := ExampleHost.sim)
       (TethysCommPlugin.modelLink ExampleHost.vehicle) ExampleHost.fresh_ecm
     = None
  /\ forall _info,
       @TethysCommPlugin.PostUpdate ExampleHost.math ExampleHost.sim
         ExampleHost.vehicle _info ExampleHost.fresh_ecm
       = None.
Proof.
  split; [reflexivity |]. split; [reflexivity |]. intros _info.
  apply PostUpdate_None_iff. left. reflexivity.
Qed.

(** ** CommsPacket *)

(** C1: a packet made from an acoustic message, a position and a time
    is restored by decoding its wire form, and converts back to the
    message it was made from. *)
Theorem CommsPacket_round_trip (MessageType : Type)
    (m : CommsPacket.LRAUVAcousticMessage MessageType)
    (v : Vector3d) (t : Z) :
  let p := CommsPacket.make m v t in
  CommsPacket.make_internal (CommsPacket.ToInternalMsg p) = p
  /\ CommsPacket.ToExternalMsg p = m.
Proof.
  intros p. split.
  - subst p. unfold CommsPacket.make_internal, CommsPacket.ToInternalMsg.
    simpl. reflexivity.
  - destruct m as [to from type data]. reflexivity.
Qed.

(** ** WorldCommPlugin::SpawnCallback *)

Import WorldCommPlugin.

Lemma skipn_length_app {A : Type} (l new : list A) :
  skipn (List.length l) (l ++ new) = new.
Proof.
  induction l as [| x l IH]; simpl; auto.
Qed.

Lemma issued_extension (before after : Plugin) (new : list ServiceCall) :
  calls (node after) = calls (node before) ++ new ->
  issued before after = new.
Proof.
  unfold issued. intros ->. apply skipn_length_app.
Qed.

Lemma Request_calls (n : Node) (svc : string) (req : RequestMsg) :
  calls (snd (Request n svc req)) =
  calls n ++ [{| service := svc; request := req;
                 requested := accepts n (List.length (calls n)) |}].
Proof. reflexivity. Qed.

Lemma origin_requested_incl (l : list ServiceCall) :
  origin_requests l = [] -> origin_requested l = [].
Proof.
  unfold origin_requests, origin_requested.
  induction l as [| c l IH]; simpl; auto.
  destruct (is_origin_request c); simpl; [discriminate | auto].
Qed.

Lemma SpawnCallback_no_id_same (H : GzMath) (self : Plugin)
    (_msg : LRAUVInit) :
  id_ _msg = None -> SpawnCallback self _msg = self.
Proof.
  intros Hid. unfold SpawnCallback. now rewrite Hid.
Qed.

(** C10: a spawn message without ID leaves the plugin as it is,
    [hasWorldLatLon] included, and no service is called. *)
Theorem SpawnCallback_without_id (H : GzMath) (self : Plugin)
    (_msg : LRAUVInit) :
  id_ _msg = None ->
  SpawnCallback self _msg = self
  /\ issued self (SpawnCallback self _msg) = []
  /\ hasWorldLatLon (SpawnCallback self _msg) = hasWorldLatLon self.
Proof.
  intros Hid.
  rewrite (SpawnCallback_no_id_same H self _msg Hid). repeat split.
  apply issued_extension. now rewrite app_nil_r.
Qed.

Lemma SpawnCallback_without_id_witness :
  SpawnCallback (H := ExampleHost.math) ExampleHost.world
    (ExampleHost.spawn None 36.8 (-122) 10)
  = ExampleHost.world
  /\ issued ExampleHost.world
       (SpawnCallback (H := ExampleHost.math) ExampleHost.world
          (ExampleHost.spawn None 36.8 (-122) 10)) = []
  /\ hasWorldLatLon
       (SpawnCallback (H := ExampleHost.math) ExampleHost.world
          (ExampleHost.spawn None 36.8 (-122) 10))
     = hasWorldLatLon ExampleHost.world.
Proof.
  apply (SpawnCallback_without_id ExampleHost.math ExampleHost.world
           (ExampleHost.spawn None 36.8 (-122) 10)).
  reflexivity.
Defined.

(** The calls of one callback, when the message has an ID and the
    world has no origin yet: the origin request comes first, then the
    entity creation and, if that went through, the performer request. *)
Lemma SpawnCallback_calls_no_origin (H : GzMath) (self : Plugin)
    (_msg : LRAUVInit) (id : StringMsg) :
  id_ _msg = Some id -> hasWorldLatLon self = false ->
  exists rest,
    calls (node (SpawnCallback self _msg)) =
    calls (node self) ++
    {| service := setSphericalCoordsService self;
       request :=
         ReqSphericalCoordinates
           {| surface_model := EARTH_WGS84;
              latitude_deg := initLat_ _msg;
              longitude_deg := initLon_ _msg;
              elevation := (- initZ_ _msg)%float;
              heading_deg := 0 |};
       requested := accepts (node self) (List.length (calls (node self))) |}
    :: rest
    /\ origin_requests rest = []
    /\ hasWorldLatLon (SpawnCallback self _msg)
       = accepts (node self) (List.length (calls (node self))).
Proof.
  intros Hid Hno. unfold SpawnCallback. rewrite Hid, Hno. simpl.
  destruct (accepts (node self) (List.length (calls (node self)))) eqn:Hsc;
    simpl;
    match goal with
    | |- context [if negb (accepts ?n ?k) then _ else _] =>
        destruct (accepts n k); simpl
    end;
    rewrite <- ?app_assoc; simpl; eexists; (split; [reflexivity |]);
    (split; [reflexivity | simpl; congruence]).
Qed.

(** The calls of one callback when the world has its origin: entity
    creation and performer request only. *)
Lemma SpawnCallback_calls_origin (H : GzMath) (self : Plugin)
    (_msg : LRAUVInit) :
  hasWorldLatLon self = true ->
  exists new,
    calls (node (SpawnCallback self _msg)) = calls (node self) ++ new
    /\ origin_requests new = []
    /\ hasWorldLatLon (SpawnCallback self _msg) = true.
Proof.
  intros Hhas. unfold SpawnCallback.
  destruct (id_ _msg) as [id |].
  - rewrite Hhas. simpl.
    destruct (accepts (node self) (List.length (calls (node self)))); simpl;
      rewrite <- ?app_assoc; simpl; eexists; (split; [reflexivity |]);
      split; auto.
  - exists []. rewrite app_nil_r. auto.
Qed.

(** C3: for a message with an ID, received while [hasWorldLatLon] is
    false, the first service call of the callback goes to the
    set-spherical-coordinates service and carries the surface model
    [EARTH_WGS84], the message's latitude and longitude, the negated
    [initZ_] as elevation and heading 0; it is the only origin request
    of the callback. *)
Theorem SpawnCallback_origin_request (H : GzMath) (self : Plugin)
    (_msg : LRAUVInit) (id : StringMsg) :
  id_ _msg = Some id -> hasWorldLatLon self = false ->
  let scCall :=
    {| service := setSphericalCoordsService self;
       request :=
         ReqSphericalCoordinates
           {| surface_model := EARTH_WGS84;
              latitude_deg := initLat_ _msg;
              longitude_deg := initLon_ _msg;
              elevation := (- initZ_ _msg)%float;
              heading_deg := 0 |};
       requested := accepts (node self) (List.length (calls (node self))) |} in
  nth_error (issued self (SpawnCallback self _msg)) 0 = Some scCall
  /\ origin_requests (issued self (SpawnCallback self _msg)) = [scCall].
Proof.
  intros Hid Hno scCall.
  destruct (SpawnCallback_calls_no_origin H self _msg id Hid Hno)
    as (rest & Hcalls & Hrest & _).
  rewrite (issued_extension _ _ _ Hcalls). split; [reflexivity |].
  unfold origin_requests in *. simpl. now rewrite Hrest.
Qed.

Lemma SpawnCallback_origin_request_witness :
  let self := ExampleHost.world in
  let _msg :=
    ExampleHost.spawn (Some {| str_data := "tethys" |}) 36.8 (-122) 10 in
  let scCall :=
    {| service := "/world/buoyant_tethys/set_spherical_coordinates";
       request :=
         ReqSphericalCoordinates
           {| surface_model := EARTH_WGS84;
              latitude_deg := 36.8;
              longitude_deg := -122;
              elevation := -10;
              heading_deg := 0 |};
       requested := true |} in
  nth_error (issued self (SpawnCallback (H := ExampleHost.math) self _msg)) 0
  = Some scCall
  /\ origin_requests
       (issued self (SpawnCallback (H := ExampleHost.math) self _msg))
     = [scCall].
Proof.
  exact (SpawnCallback_origin_request ExampleHost.math ExampleHost.world
           (ExampleHost.spawn (Some {| str_data := "tethys" |}) 36.8 (-122) 10)
           {| str_data := "tethys" |} eq_refl eq_refl).
Defined.

(** What one callback adds to the log of service calls, and how the
    flag moves with it. *)
Lemma SpawnCallback_step (H : GzMath) (self : Plugin) (_msg : LRAUVInit) :
  exists new,
    calls (node (SpawnCallback self _msg)) = calls (node self) ++ new
    /\ (List.length (origin_requested new) <= 1)%nat
    /\ (hasWorldLatLon (SpawnCallback self _msg) = false ->
        origin_requested new = [])
    /\ (hasWorldLatLon self = true ->
        origin_requests new = []
        /\ hasWorldLatLon (SpawnCallback self _msg) = true).
Proof.
  destruct (hasWorldLatLon self) eqn:Hhas.
  - destruct (SpawnCallback_calls_origin H self _msg Hhas)
      as (new & Hcalls & Hnone & Htrue).
    exists new. rewrite (origin_requested_incl _ Hnone), Htrue.
    repeat split; auto; simpl; try lia; discriminate.
  - destruct (id_ _msg) as [id |] eqn:Hid.
    + destruct (SpawnCallback_calls_no_origin H self _msg id Hid Hhas)
        as (rest & Hcalls & Hrest & Hflag).
      eexists. split; [exact Hcalls |].
      unfold origin_requested in *. simpl.
      fold (origin_requested rest).
      rewrite (origin_requested_incl _ Hrest), Hflag.
      destruct (accepts (node self) _); simpl;
        repeat split; auto; try lia; discriminate.
    + exists []. rewrite (SpawnCallback_no_id_same H self _msg Hid), app_nil_r.
      repeat split; auto; simpl; try lia; discriminate.
Qed.

Lemma origin_requested_app (l1 l2 : list ServiceCall) :
  origin_requested (l1 ++ l2) = origin_requested l1 ++ origin_requested l2.
Proof. apply filter_app. Qed.

Lemma origin_requests_app (l1 l2 : list ServiceCall) :
  origin_requests (l1 ++ l2) = origin_requests l1 ++ origin_requests l2.
Proof. apply filter_app. Qed.

(** The log of a whole delivery extends the log it started from. *)
Lemma deliver_extends (H : GzMath) (msgs : list LRAUVInit) (self : Plugin) :
  exists new,
    calls (node (deliver self msgs)) = calls (node self) ++ new.
Proof.
  revert self. induction msgs as [| _msg msgs IH]; intros self; simpl.
  - exists []. now rewrite app_nil_r.
  - destruct (SpawnCallback_step H self _msg) as (new1 & Hcalls1 & _).
    destruct (IH (SpawnCallback self _msg)) as (new2 & Hcalls2).
    exists (new1 ++ new2). unfold deliver in *. simpl.
    now rewrite Hcalls2, Hcalls1, app_assoc.
Qed.

(** Once the world has its origin, a delivery asks for none and the
    flag stays. *)
Lemma deliver_with_origin (H : GzMath) (msgs : list LRAUVInit) (self : Plugin) :
  hasWorldLatLon self = true ->
  origin_requests (issued self (deliver self msgs)) = []
  /\ hasWorldLatLon (deliver self msgs) = true.
Proof.
  revert self. induction msgs as [| _msg msgs IH]; intros self Hhas.
  - split; [| exact Hhas].
    unfold deliver. simpl. rewrite (issued_extension self self []); auto.
    now rewrite app_nil_r.
  - destruct (SpawnCallback_step H self _msg)
      as (new1 & Hcalls1 & _ & _ & Hkeep).
    destruct (Hkeep Hhas) as [Hnone1 Hhas1].
    destruct (IH _ Hhas1) as [Hnone2 Hhas2].
    destruct (deliver_extends H msgs (SpawnCallback self _msg))
      as (new2 & Hcalls2).
    rewrite (issued_extension _ _ _ Hcalls2) in Hnone2.
    change (deliver self (_msg :: msgs))
      with (deliver (SpawnCallback self _msg) msgs).
    split; [| exact Hhas2].
    rewrite (issued_extension self _ (new1 ++ new2)).
    + now rewrite origin_requests_app, Hnone1, Hnone2.
    + now rewrite Hcalls2, Hcalls1, app_assoc.
Qed.

(** Over a whole delivery, at most one origin request goes through. *)
Lemma deliver_origin_once (H : GzMath) (msgs : list LRAUVInit) (self : Plugin) :
  (List.length (origin_requested (issued self (deliver self msgs))) <= 1)%nat.
Proof.
  revert self. induction msgs as [| _msg msgs IH]; intros self.
  - unfold deliver. simpl. rewrite (issued_extension self self []).
    + simpl. lia.
    + now rewrite app_nil_r.
  - destruct (SpawnCallback_step H self _msg)
      as (new1 & Hcalls1 & Hle1 & Hnone1 & _).
    destruct (deliver_extends H msgs (SpawnCallback self _msg))
      as (new2 & Hcalls2).
    change (deliver self (_msg :: msgs))
      with (deliver (SpawnCallback self _msg) msgs).
    rewrite (issued_extension self _ (new1 ++ new2))
      by (now rewrite Hcalls2, Hcalls1, app_assoc).
    rewrite origin_requested_app, length_app.
    destruct (hasWorldLatLon (SpawnCallback self _msg)) eqn:Hhas1.
    + destruct (deliver_with_origin H msgs _ Hhas1) as [Hnone2 _].
      rewrite (issued_extension _ _ _ Hcalls2) in Hnone2.
      rewrite (origin_requested_incl _ Hnone2). simpl. lia.
    + rewrite (Hnone1 eq_refl). simpl.
      specialize (IH (SpawnCallback self _msg)).
      now rewrite (issued_extension _ _ _ Hcalls2) in IH.
Qed.

(** The origin request of the first message with an ID, when it goes
    through, is the only one of the whole delivery that does. *)
Lemma deliver_origin_of_first (H : GzMath) (self : Plugin)
    (_msg : LRAUVInit) (id : StringMsg) (msgs : list LRAUVInit) :
  id_ _msg = Some id -> hasWorldLatLon self = false ->
  accepts (node self) (List.length (calls (node self))) = true ->
  origin_requested (issued self (deliver self (_msg :: msgs))) =
  [ {| service := setSphericalCoordsService self;
       request :=
         ReqSphericalCoordinates
           {| surface_model := EARTH_WGS84;
              latitude_deg := initLat_ _msg;
              longitude_deg := initLon_ _msg;
              elevation := (- initZ_ _msg)%float;
              heading_deg := 0 |};
       requested := true |} ].
Proof.
  intros Hid Hno Hok.
  destruct (SpawnCallback_calls_no_origin H self _msg id Hid Hno)
    as (rest & Hcalls1 & Hrest & Hflag).
  rewrite Hok in Hcalls1, Hflag.
  destruct (deliver_with_origin H msgs _ Hflag) as [Hnone2 _].
  destruct (deliver_extends H msgs (SpawnCallback self _msg))
    as (new2 & Hcalls2).
  rewrite (issued_extension _ _ _ Hcalls2) in Hnone2.
  change (deliver self (_msg :: msgs))
    with (deliver (SpawnCallback self _msg) msgs).
  erewrite issued_extension
    by (rewrite Hcalls2, Hcalls1, <- app_assoc; reflexivity).
  simpl. rewrite origin_requested_app.
  change (filter (fun c => is_origin_request c && requested c) rest)
    with (origin_requested rest).
  now rewrite (origin_requested_incl _ Hrest), (origin_requested_incl _ Hnone2).
Qed.

(** The callback leaves the service names and the spawn topic as they
    are. *)
Lemma SpawnCallback_frame (H : GzMath) (self : Plugin) (_msg : LRAUVInit) :
  createService (SpawnCallback self _msg) = createService self
  /\ performerService (SpawnCallback self _msg) = performerService self
  /\ setSphericalCoordsService (SpawnCallback self _msg)
     = setSphericalCoordsService self
  /\ spawnTopic (SpawnCallback self _msg) = spawnTopic self.
Proof.
  unfold SpawnCallback. destruct (id_ _msg) as [id |]; [| auto].
  destruct (hasWorldLatLon self); simpl;
    repeat match goal with
    | |- context [if negb (accepts ?n ?k) then _ else _] =>
        destruct (accepts n k); simpl
    end; auto.
Qed.

(** The callback leaves the transport as it is: it only adds to the
    log of calls. *)
Lemma SpawnCallback_accepts (H : GzMath) (self : Plugin) (_msg : LRAUVInit) :
  accepts (node (SpawnCallback self _msg)) = accepts (node self).
Proof.
  unfold SpawnCallback. destruct (id_ _msg) as [id |]; [| reflexivity].
  destruct (hasWorldLatLon self); simpl;
    repeat match goal with
    | |- context [if negb (accepts ?n ?k) then _ else _] =>
        destruct (accepts n k); simpl
    end; reflexivity.
Qed.

(** Messages without ID are passed over: a delivery of such messages
    leaves the plugin as it is. *)
Lemma deliver_no_id_same (H : GzMath) (msgs : list LRAUVInit) (self : Plugin) :
  Forall (fun m => id_ m = None) msgs -> deliver self msgs = self.
Proof.
  induction 1 as [| m msgs Hm _ IH]; [reflexivity |].
  change (deliver self (m :: msgs)) with (deliver (SpawnCallback self m) msgs).
  now rewrite (SpawnCallback_no_id_same H self m Hm).
Qed.

(** A request for the origin that the transport rejects leaves the flag
    false, and the next message with an ID asks again, with that
    message's coordinates. *)
Lemma SpawnCallback_rejected_then_retry (H : GzMath) (self : Plugin)
    (_msg : LRAUVInit) (id : StringMsg) :
  id_ _msg = Some id -> hasWorldLatLon self = false ->
  accepts (node self) (List.length (calls (node self))) = false ->
  hasWorldLatLon (SpawnCallback self _msg) = false
  /\ (exists rest,
        issued self (SpawnCallback self _msg) =
        {| service := setSphericalCoordsService self;
           request :=
             ReqSphericalCoordinates
               {| surface_model := EARTH_WGS84;
                  latitude_deg := initLat_ _msg;
                  longitude_deg := initLon_ _msg;
                  elevation := (- initZ_ _msg)%float;
                  heading_deg := 0 |};
           requested := false |} :: rest
        /\ origin_requests rest = [])
  /\ forall skipped _msg' id',
       Forall (fun m => id_ m = None) skipped ->
       id_ _msg' = Some id' ->
       origin_requests
         (issued (SpawnCallback self _msg)
                 (deliver (SpawnCallback self _msg) (skipped ++ [_msg']))) =
       [ {| service := setSphericalCoordsService self;
            request :=
              ReqSphericalCoordinates
                {| surface_model := EARTH_WGS84;
                   latitude_deg := initLat_ _msg';
                   longitude_deg := initLon_ _msg';
                   elevation := (- initZ_ _msg')%float;
                   heading_deg := 0 |};
            requested :=
              accepts (node self)
                (List.length (calls (node (SpawnCallback self _msg)))) |} ]
       /\ hasWorldLatLon
            (deliver (SpawnCallback self _msg) (skipped ++ [_msg']))
          = accepts (node self)
              (List.length (calls (node (SpawnCallback self _msg)))).
Proof.
  intros Hid Hno Hrej.
  destruct (SpawnCallback_calls_no_origin H self _msg id Hid Hno)
    as (rest & Hcalls1 & Hrest & Hflag).
  rewrite Hrej in Hcalls1, Hflag.
  split; [exact Hflag |]. split.
  - exists rest. split; [| exact Hrest].
    now apply issued_extension.
  - intros skipped _msg' id' Hskip Hid'.
    unfold deliver. rewrite fold_left_app. cbn [fold_left].
    change (fold_left SpawnCallback skipped (SpawnCallback self _msg))
      with (deliver (SpawnCallback self _msg) skipped).
    rewrite (deliver_no_id_same H skipped _ Hskip).
    destruct (SpawnCallback_calls_no_origin H (SpawnCallback self _msg)
                _msg' id' Hid' Hflag) as (rest' & Hcalls2 & Hrest' & Hflag').
    destruct (SpawnCallback_frame H self _msg) as (_ & _ & Hsvc & _).
    rewrite Hsvc in Hcalls2.
    rewrite (SpawnCallback_accepts H self _msg) in Hcalls2, Hflag'.
    split; [| exact Hflag'].
    rewrite (issued_extension _ _ _ Hcalls2).
    unfold origin_requests in *. simpl. now rewrite Hrest'.
Qed.

(** C2 (as amended): over every sequence of spawn messages, at most
    one request to set the world origin goes through, that is, has
    [Request] return true; once [hasWorldLatLon] is true no
    later message asks for the origin and the flag stays true; within
    one callback an origin request is made only if the flag was false,
    and one that goes through leaves the flag true; when the request
    of the first vehicle goes through, the origin requested over the
    whole sequence is that vehicle's; and a request that the transport
    rejects is logged as not gone through and leaves [hasWorldLatLon]
    false, so that the next message with an ID, whatever messages
    without ID come before it, asks for the origin again, with that
    message's coordinates, and sets the flag to what that request
    returns. *)
Theorem SpawnCallback_origin_at_most_once (H : GzMath) (self : Plugin)
    (msgs : list LRAUVInit) :
  (List.length (origin_requested (issued self (deliver self msgs))) <= 1)%nat
  /\ (hasWorldLatLon self = true ->
      origin_requests (issued self (deliver self msgs)) = []
      /\ hasWorldLatLon (deliver self msgs) = true)
  /\ (forall _msg,
        (origin_requests (issued self (SpawnCallback self _msg)) <> [] ->
         hasWorldLatLon self = false)
        /\ (origin_requested (issued self (SpawnCallback self _msg)) <> [] ->
            hasWorldLatLon (SpawnCallback self _msg) = true))
  /\ (forall _msg id,
        id_ _msg = Some id -> hasWorldLatLon self = false ->
        accepts (node self) (List.length (calls (node self))) = true ->
        origin_requested (issued self (deliver self (_msg :: msgs))) =
        [ {| service := setSphericalCoordsService self;
             request :=
               ReqSphericalCoordinates
                 {| surface_model := EARTH_WGS84;
                    latitude_deg := initLat_ _msg;
                    longitude_deg := initLon_ _msg;
                    elevation := (- initZ_ _msg)%float;
                    heading_deg := 0 |};
             requested := true |} ])
  /\ (forall _msg id,
        id_ _msg = Some id -> hasWorldLatLon self = false ->
        accepts (node self) (List.length (calls (node self))) = false ->
        hasWorldLatLon (SpawnCallback self _msg) = false
        /\ (exists rest,
              issued self (SpawnCallback self _msg) =
              {| service := setSphericalCoordsService self;
                 request :=
                   ReqSphericalCoordinates
                     {| surface_model := EARTH_WGS84;
                        latitude_deg := initLat_ _msg;
                        longitude_deg := initLon_ _msg;
                        elevation := (- initZ_ _msg)%float;
                        heading_deg := 0 |};
                 requested := false |} :: rest
              /\ origin_requests rest = [])
        /\ forall skipped _msg' id',
             Forall (fun m => id_ m = None) skipped ->
             id_ _msg' = Some id' ->
             origin_requests
               (issued (SpawnCallback self _msg)
                       (deliver (SpawnCallback self _msg)
                                (skipped ++ [_msg']))) =
             [ {| service := setSphericalCoordsService self;
                  request :=
                    ReqSphericalCoordinates
                      {| surface_model := EARTH_WGS84;
                         latitude_deg := initLat_ _msg';
                         longitude_deg := initLon_ _msg';
                         elevation := (- initZ_ _msg')%float;
                         heading_deg := 0 |};
                  requested :=
                    accepts (node self)
                      (List.length (calls (node (SpawnCallback self _msg)))) |} ]
             /\ hasWorldLatLon
                  (deliver (SpawnCallback self _msg) (skipped ++ [_msg']))
                = accepts (node self)
                    (List.length (calls (node (SpawnCallback self _msg))))).
Proof.
  split; [apply deliver_origin_once |].
  split; [apply deliver_with_origin |].
  split;
    [| split; [intros _msg id; apply deliver_origin_of_first
              | intros _msg id; apply SpawnCallback_rejected_then_retry]].
  intros _msg.
  destruct (SpawnCallback_step H self _msg)
    as (new & Hcalls & _ & Hnone & Hkeep).
  rewrite (issued_extension _ _ _ Hcalls). split.
  - intros Hsome. destruct (hasWorldLatLon self); [| reflexivity].
    destruct (Hkeep eq_refl) as [Hn _]. contradiction.
  - intros Hsome.
    destruct (hasWorldLatLon (SpawnCallback self _msg)); [reflexivity |].
    now specialize (Hnone eq_refl).
Qed.

(** A request that the transport rejects leaves the flag false, and
    the next spawn message asks again.  Here the first call of
    [Request] is rejected and the later ones go through: the callback
    asks for the world origin twice, not at most once, and the origin
    that is set is the second vehicle's, not the first one's. *)
Lemma deliver_after_rejected_request :
  let self :=
    with_node ExampleHost.world
      {| accepts := fun k => negb (Nat.eqb k 0);
         subscribable := fun _ => true;
         calls := [];
         subscriptions := [] |} in
  let first := ExampleHost.spawn (Some {| str_data := "tethys" |}) 36.8 (-122) 10 in
  let second := ExampleHost.spawn (Some {| str_data := "daphne" |}) 36.9 (-121) 5 in
  let log := issued self (deliver (H := ExampleHost.math) self [first; second]) in
  ~ (List.length (origin_requests log) <= 1)%nat
  /\ List.map requested (origin_requests log) = [false; true]
  /\ List.map request (origin_requested log) =
     [ ReqSphericalCoordinates
         {| surface_model := EARTH_WGS84; latitude_deg := 36.9;
            longitude_deg := -121; elevation := -5; heading_deg := 0 |} ].
Proof.
  cbv zeta. split; [| split; reflexivity].
  change (~ (2 <= 1)%nat). lia.
Qed.

(** ** WorldCommPlugin::Configure *)

(** When the subscription goes through and the world has a name that
    is valid in a topic, [Configure] takes [hasWorldLatLon] from the
    world: true exactly when spherical coordinates are already set. *)
Lemma Configure_hasWorldLatLon (S : GzSim) (self : Plugin) (_entity : Entity)
    (_sdf : SdfElement) (_ecm : ECM) (name : string) :
  subscribable (node self)
    (if HasElement _sdf "spawn_topic" then Get _sdf "spawn_topic"
     else spawnTopic self) = true ->
  worldEntity _entity _ecm <> kNullEntity ->
  WorldName (worldEntity _entity _ecm) _ecm = Some name ->
  empty name = false -> empty (AsValidTopic name) = false ->
  hasWorldLatLon (Configure self _entity _sdf _ecm)
  = hasSphericalCoordinates (worldEntity _entity _ecm) _ecm.
Proof.
  intros Hsub Hent Hname Hne Hvalid.
  assert (Hz : Z.eqb kNullEntity (worldEntity _entity _ecm) = false)
    by (apply Z.eqb_neq; congruence).
  unfold Configure, Subscribe. cbv zeta.
  rewrite Hz, Hname, Hne, Hvalid.
  destruct (HasElement _sdf "spawn_topic"); simpl in *; rewrite Hsub;
    reflexivity.
Qed.

(** ** Tick arithmetic of the print guard

    The guard of [CommandCallback] subtracts 64-bit tick counts.  With
    the previous print time in the range of [seconds] of an [int], as
    the callback leaves it, the difference stays within 64 bits. *)

Lemma int_floor_range (C : FloatToInt) (x : float) :
  INT_MIN <= int_indefinite x <= INT_MAX ->
  INT_MIN <= int_floor x <= INT_MAX.
Proof.
  intros Hi. unfold int_floor.
  destruct (floorZ x) as [z |]; [| exact Hi].
  destruct (INT_MIN <=? z) eqn:Hlo; destruct (z <=? INT_MAX) eqn:Hhi;
    simpl; try exact Hi.
  apply Z.leb_le in Hlo, Hhi. lia.
Qed.

Lemma CommandCallback_ticks_fit (H : GzMath) (C : FloatToInt)
    (self : TethysCommPlugin.Plugin) (_msg : LRAUVCommand) :
  (forall x, INT_MIN <= int_indefinite x <= INT_MAX) ->
  seconds INT_MIN <= TethysCommPlugin.prevSubPrintTime self <= seconds INT_MAX ->
  - 2 ^ 63 <= seconds (int_floor (time_ _msg))
              - TethysCommPlugin.prevSubPrintTime self < 2 ^ 63
  /\ seconds INT_MIN
     <= TethysCommPlugin.prevSubPrintTime
          (fst (TethysCommPlugin.CommandCallback self _msg))
     <= seconds INT_MAX.
Proof.
  intros Hconv Hprev.
  pose proof (int_floor_range C (time_ _msg) (Hconv _)) as Hr.
  unfold seconds, INT_MIN, INT_MAX in *. split; [lia |].
  unfold TethysCommPlugin.CommandCallback. cbv zeta.
  destruct (Z.ltb _ _); simpl; unfold seconds; lia.
Qed.

(** ** The order of doubles *)

Lemma SFltb_SFlt x y : SFltb x y = true <-> SFlt x y.
Proof.
  unfold SFltb.
  destruct x as [s1 | s1 | | s1 m1 e1], y as [s2 | s2 | | s2 m2 e2]; simpl;
    try (destruct s1); try (destruct s2); simpl;
    try (destruct (Z.compare_spec e1 e2); simpl);
    try rewrite Pos.compare_cont_spec; simpl;
    try (destruct (Pos.compare_spec m1 m2); simpl);
    (split; [ intros Hc; try discriminate Hc; auto; try lia
            | intros Hp; try reflexivity; exfalso;
              try discriminate; try tauto; try lia;
              try (destruct Hp; discriminate) ]).
Qed.

Lemma SFlt_trans x y z : SFlt x y -> SFlt y z -> SFlt x z.
Proof.
  destruct x as [s1 | s1 | | s1 m1 e1], y as [s2 | s2 | | s2 m2 e2],
    z as [s3 | s3 | | s3 m3 e3]; simpl;
    try (destruct s1); try (destruct s2); try (destruct s3); simpl;
    intuition (try discriminate; try lia).
Qed.

Lemma ltb_trans (x y z : float) :
  (x <? y)%float = true -> (y <? z)%float = true -> (x <? z)%float = true.
Proof.
  rewrite !ltb_spec, !SFltb_SFlt. apply SFlt_trans.
Qed.

(** ** Filling the coefficient table *)

Import StdMapInsert.

Lemma In_insert (m : map) (kv x : float * float) :
  In x (insert m kv) -> x = kv \/ In x m.
Proof.
  induction m as [| [k' v'] m' IH]; simpl.
  - intuition.
  - destruct (k' <? fst kv)%float; simpl.
    + intros [<- | Hin]; auto. destruct (IH Hin); auto.
    + destruct (fst kv <? k')%float; simpl; intuition.
Qed.

(** Insertion never drops or replaces an entry. *)
Lemma insert_keeps (m : map) (kv x : float * float) :
  In x m -> In x (insert m kv).
Proof.
  induction m as [| [k' v'] m' IH]; simpl; [contradiction |].
  destruct (k' <? fst kv)%float; simpl.
  - intros [<- | Hin]; auto.
  - destruct (fst kv <? k')%float; simpl; intuition.
Qed.

(** An entry whose key is strictly below or above every key of the map
    is put into it. *)
Lemma insert_new (m : map) (kv : float * float) :
  forallb (fun e => (fst e <? fst kv)%float || (fst kv <? fst e)%float) m = true ->
  In kv (insert m kv).
Proof.
  induction m as [| [k' v'] m' IH]; simpl.
  - intros _. now left.
  - intros Hall. apply andb_prop in Hall as [Hk Hrest].
    destruct (k' <? fst kv)%float; simpl; auto.
    simpl in Hk. rewrite Hk. simpl. auto.
Qed.

(** Insertion keeps the ordering invariant of the container. *)
Lemma insert_ordered (m : map) (kv : float * float) :
  is_ordered m = true -> is_ordered (insert m kv) = true.
Proof.
  destruct kv as [k v].
  induction m as [| [k' v'] m' IH]; simpl; intros Hord; auto.
  apply andb_prop in Hord as [Hhead Htail].
  destruct (k' <? k)%float eqn:Hlt; simpl.
  - rewrite (IH Htail), andb_true_r.
    apply forallb_forall. intros x Hx.
    destruct (In_insert _ _ _ Hx) as [-> | Hin]; auto.
    rewrite forallb_forall in Hhead. auto.
  - destruct (k <? k')%float eqn:Hgt; simpl.
    + rewrite Hgt, Hhead, Htail. simpl. rewrite andb_true_r.
      apply forallb_forall. intros x Hx.
      rewrite forallb_forall in Hhead.
      eapply ltb_trans; [exact Hgt | auto].
    + now rewrite Hhead, Htail.
Qed.

Import FinLiftDragData.

Lemma collect_fold (siblings : list Sdf.Element) (points : map) :
  collect siblings points =
  fold_left insert
    (List.map (fun c => (Sdf.Get_double c "angle", Sdf.Get_double c "coeff"))
       (filter (fun c => String.eqb (Sdf.GetName c) "spline_point") siblings))
    points.
Proof.
  revert points. induction siblings as [| c next IH]; intros points; simpl; auto.
  rewrite IH. destruct (String.eqb (Sdf.GetName c) "spline_point"); reflexivity.
Qed.

Lemma fold_insert_ordered (pts : list (float * float)) (m : map) :
  is_ordered m = true -> is_ordered (fold_left insert pts m) = true.
Proof.
  revert m. induction pts as [| p pts IH]; intros m Hord; simpl; auto.
  apply IH, insert_ordered, Hord.
Qed.

Lemma fold_insert_keeps (pts : list (float * float)) (m : map)
    (x : float * float) :
  In x m -> In x (fold_left insert pts m).
Proof.
  revert m. induction pts as [| p pts IH]; intros m Hin; simpl; auto.
  apply IH, insert_keeps, Hin.
Qed.

Lemma In_fold_insert (pts : list (float * float)) (m : map)
    (x : float * float) :
  In x (fold_left insert pts m) -> In x pts \/ In x m.
Proof.
  revert m. induction pts as [| p pts IH]; intros m; simpl; auto.
  intros Hin. destruct (IH _ Hin) as [H1 | H2]; auto.
  destruct (In_insert _ _ _ H2) as [-> | H3]; auto.
Qed.

Lemma createSpline_table_ordered (valid : bool) (_sdf : Sdf.Element)
    (_sdfParam : string) :
  is_ordered (fst (createSpline valid _sdf _sdfParam)) = true.
Proof.
  unfold createSpline.
  destruct (negb (Sdf.HasElement _sdf _sdfParam)); [reflexivity |].
  destruct (Sdf.GetFirstElement _sdf); [| reflexivity].
  destruct (search (Sdf.children _sdf) _sdfParam) as [elem |]; [| reflexivity].
  simpl. rewrite collect_fold. now apply fold_insert_ordered.
Qed.

(** X1: whatever the SDF element holds, the drag table that
    [Configure] stores satisfies the ordering invariant of [std::map]:
    keys strictly increasing, hence no two equivalent keys. *)
Theorem Configure_drag_table_ordered
    (self : FinLiftDragPlugin.FinLiftDragPrivateData) (_entity : Entity)
    (_sdf : Sdf.Element) :
  is_ordered (FinLiftDragPlugin.splineCd (Configure self _entity _sdf)) = true.
Proof.
  unfold Configure.
  pose proof (createSpline_table_ordered
                (FinLiftDragPlugin.validConfig self) _sdf "drag_coeffs") as Hord.
  destruct (createSpline _ _ _) as [points valid]. exact Hord.
Qed.

(** The search loop finds the parameter exactly when [HasElement] says
    it is there. *)
Lemma search_HasElement (_sdf : Sdf.Element) (_sdfParam : string) :
  Sdf.HasElement _sdf _sdfParam = true <->
  exists elem, search (Sdf.children _sdf) _sdfParam = Some elem.
Proof.
  unfold Sdf.HasElement.
  induction (Sdf.children _sdf) as [| c next IH]; simpl.
  - split; [discriminate | intros [elem Hs]; discriminate].
  - destruct (String.eqb (Sdf.GetName c) _sdfParam); simpl; auto.
    split; eauto.
Qed.

Lemma createSpline_found (valid : bool) (_sdf elem : Sdf.Element)
    (_sdfParam : string) :
  search (Sdf.children _sdf) _sdfParam = Some elem ->
  createSpline valid _sdf _sdfParam
  = (fold_left insert (spline_points elem) [], valid).
Proof.
  intros Hs. unfold createSpline.
  rewrite (proj2 (search_HasElement _sdf _sdfParam) (ex_intro _ elem Hs)).
  unfold Sdf.GetFirstElement. rewrite Hs.
  destruct (Sdf.children _sdf) as [| c next]; [discriminate |]. simpl.
  unfold spline_points. now rewrite collect_fold.
Qed.

Lemma createSpline_not_found (valid : bool) (_sdf : Sdf.Element)
    (_sdfParam : string) :
  search (Sdf.children _sdf) _sdfParam = None ->
  createSpline valid _sdf _sdfParam = ([], false).
Proof.
  intros Hs. unfold createSpline.
  destruct (Sdf.HasElement _sdf _sdfParam) eqn:Hhas; [| reflexivity].
  destruct (proj1 (search_HasElement _sdf _sdfParam) Hhas) as [elem Hs'].
  congruence.
Qed.

(** The search loop stops at the first child of the given name: the
    children before it have other names. *)
Lemma search_none (siblings : list Sdf.Element) (_sdfParam : string) :
  Forall (fun c => Sdf.GetName c <> _sdfParam) siblings ->
  search siblings _sdfParam = None.
Proof.
  induction 1 as [| c next Hc _ IH]; [reflexivity |]. simpl.
  apply String.eqb_neq in Hc. now rewrite Hc.
Qed.

Lemma search_first (before after : list Sdf.Element) (elem : Sdf.Element)
    (_sdfParam : string) :
  Forall (fun c => Sdf.GetName c <> _sdfParam) before ->
  Sdf.GetName elem = _sdfParam ->
  search (before ++ elem :: after) _sdfParam = Some elem.
Proof.
  intros Hbefore Hname.
  induction Hbefore as [| c next Hc _ IH]; simpl.
  - apply String.eqb_eq in Hname. now rewrite Hname.
  - apply String.eqb_neq in Hc. now rewrite Hc.
Qed.

Lemma first_of_name (siblings : list Sdf.Element) (_sdfParam : string) :
  Forall (fun c => Sdf.GetName c <> _sdfParam) siblings
  \/ exists before elem after,
       siblings = before ++ elem :: after
       /\ Forall (fun c => Sdf.GetName c <> _sdfParam) before
       /\ Sdf.GetName elem = _sdfParam.
Proof.
  induction siblings as [| c next IH]; [left; constructor |].
  destruct (String.eqb (Sdf.GetName c) _sdfParam) eqn:Hc.
  - right. exists [], c, next. apply String.eqb_eq in Hc. auto.
  - apply String.eqb_neq in Hc.
    destruct IH as [Hnone | (before & elem & after & -> & Hb & Hn)].
    + left. now constructor.
    + right. exists (c :: before), elem, after. auto.
Qed.

(** X2: [createSpline] fails, returning the empty table and clearing
    [validConfig], exactly when the element has no child of the given
    name; otherwise [validConfig] is left as it was and the table is
    that of the first child of that name, the one with no child of that
    name before it among the children of the element: the pairs of its
    [spline_point] entries, inserted in document order into the empty
    table.  One of the two cases always holds.  The third failure exit
    of the code, after the search loop, is never taken. *)
Theorem createSpline_validity (valid : bool) (_sdf : Sdf.Element)
    (_sdfParam : string) :
  snd (createSpline valid _sdf _sdfParam)
  = Sdf.HasElement _sdf _sdfParam && valid
  /\ (Sdf.HasElement _sdf _sdfParam = false ->
      createSpline valid _sdf _sdfParam = ([], false))
  /\ (Sdf.HasElement _sdf _sdfParam = true ->
      exists elem,
        search (Sdf.children _sdf) _sdfParam = Some elem
        /\ createSpline valid _sdf _sdfParam
           = (fold_left insert (spline_points elem) [], valid))
  /\ (Forall (fun c => Sdf.GetName c <> _sdfParam) (Sdf.children _sdf) ->
      createSpline valid _sdf _sdfParam = ([], false))
  /\ (forall before elem after,
        Sdf.children _sdf = before ++ elem :: after ->
        Forall (fun c => Sdf.GetName c <> _sdfParam) before ->
        Sdf.GetName elem = _sdfParam ->
        createSpline valid _sdf _sdfParam
        = (fold_left insert
             (List.map (fun c => (Sdf.Get_double c "angle",
                                  Sdf.Get_double c "coeff"))
                (filter (fun c => String.eqb (Sdf.GetName c) "spline_point")
                   (Sdf.children elem)))
             [],
           valid))
  /\ (Forall (fun c => Sdf.GetName c <> _sdfParam) (Sdf.children _sdf)
      \/ exists before elem after,
           Sdf.children _sdf = before ++ elem :: after
           /\ Forall (fun c => Sdf.GetName c <> _sdfParam) before
           /\ Sdf.GetName elem = _sdfParam).
Proof.
  split; [| split; [| split; [| split; [| split]]]].
  - destruct (search (Sdf.children _sdf) _sdfParam) as [elem |] eqn:Hs.
    + rewrite (createSpline_found valid _ _ _ Hs).
      now rewrite (proj2 (search_HasElement _sdf _sdfParam) (ex_intro _ elem Hs)).
    + rewrite (createSpline_not_found valid _ _ Hs).
      destruct (Sdf.HasElement _sdf _sdfParam) eqn:Hhas; [| reflexivity].
      destruct (proj1 (search_HasElement _sdf _sdfParam) Hhas) as [elem Hs'].
      congruence.
  - intros Hhas. unfold createSpline. now rewrite Hhas.
  - intros Hhas.
    destruct (proj1 (search_HasElement _sdf _sdfParam) Hhas) as [elem Hs].
    exists elem. split; [exact Hs |]. now apply createSpline_found.
  - intros Hnone. apply createSpline_not_found. now apply search_none.
  - intros before elem after Hsplit Hbefore Hname.
    apply (createSpline_found valid _sdf elem).
    rewrite Hsplit. now apply search_first.
  - apply first_of_name.
Qed.

(** X3: the table read from the SDF answers a listed angle with its
    coefficient.  For a [spline_point] whose angle is strictly below or
    above the angle of every earlier point (so it is the first with
    that angle), [interpolate] on the table that [createSpline] builds
    returns that point's coefficient; later points with the same angle
    do not replace it. *)
Theorem createSpline_lookup (valid : bool) (_sdf elem : Sdf.Element)
    (_sdfParam : string) (p1 p2 : list (float * float)) (a c : float) :
  search (Sdf.children _sdf) _sdfParam = Some elem ->
  spline_points elem = p1 ++ (a, c) :: p2 ->
  forallb (fun p => (fst p <? a)%float || (a <? fst p)%float) p1 = true ->
  FinLiftDragPlugin.interpolate (fst (createSpline valid _sdf _sdfParam)) a
  = FinLiftDragPlugin.Returns c.
Proof.
  intros Hs Hpts Hnew.
  rewrite (createSpline_found valid _sdf elem _sdfParam Hs), Hpts. simpl.
  rewrite fold_left_app. simpl.
  set (m1 := fold_left insert p1 []).
  assert (Hin1 : In (a, c) (insert m1 (a, c))).
  { apply insert_new. apply forallb_forall. intros x Hx.
    destruct (In_fold_insert _ _ _ Hx) as [Hp | []].
    rewrite forallb_forall in Hnew. exact (Hnew _ Hp). }
  pose proof (fold_insert_keeps p2 _ _ Hin1) as Hin.
  assert (Hord : is_ordered (fold_left insert p2 (insert m1 (a, c))) = true).
  { apply fold_insert_ordered, insert_ordered.
    subst m1. now apply fold_insert_ordered. }
  destruct (find_hit _ a c Hord Hin) as [Hd Hc].
  unfold FinLiftDragPlugin.interpolate. now rewrite Hc, Hd.
Qed.

Lemma createSpline_lookup_witness :
  let point a c :=
    Sdf.Elem "spline_point" [("angle", a); ("coeff", c)] [] in
  let _sdf :=
    Sdf.Elem "plugin" []
      [ Sdf.Elem "link_name" [] [];
        Sdf.Elem "drag_coeffs" []
          [ point 0.5 0.3; point (-0.5) 0.25; point 0 0.1; point 0 99 ]%float ] in
  FinLiftDragPlugin.interpolate (fst (createSpline true _sdf "drag_coeffs")) 0
  = FinLiftDragPlugin.Returns 0.1.
Proof.
  cbv zeta.
  eapply (createSpline_lookup true _ _ "drag_coeffs"
            [(0.5, 0.3); (-0.5, 0.25)]%float [(0, 99)]%float 0%float 0.1%float);
    reflexivity.
Defined.

(** X4: [interpolate] on the table that [createSpline] builds never
    returns a number that is not in the SDF: a returned value is the
    coefficient of a [spline_point] of the parameter whose angle is
    equivalent to the query. *)
Theorem createSpline_returns_listed (valid : bool) (_sdf : Sdf.Element)
    (_sdfParam : string) (a v : float) :
  FinLiftDragPlugin.interpolate (fst (createSpline valid _sdf _sdfParam)) a
  = FinLiftDragPlugin.Returns v ->
  exists elem k,
    search (Sdf.children _sdf) _sdfParam = Some elem
    /\ In (k, v) (spline_points elem)
    /\ (k <? a)%float = false /\ (a <? k)%float = false.
Proof.
  destruct (search (Sdf.children _sdf) _sdfParam) as [elem |] eqn:Hs.
  - rewrite (createSpline_found valid _sdf elem _sdfParam Hs). simpl.
    intros Hret.
    destruct (interpolate_Returns_inv _ _ _ Hret) as (k & Hin & Hlt & Hgt).
    exists elem, k. repeat split; auto.
    destruct (In_fold_insert _ _ _ Hin) as [Hp | []]; exact Hp.
  - rewrite (createSpline_not_found valid _sdf _sdfParam Hs). simpl.
    intros Hret.
    destruct (interpolate_Returns_inv _ _ _ Hret) as (k & [] & _).
Qed.

Lemma createSpline_returns_listed_witness :
  let point a c :=
    Sdf.Elem "spline_point" [("angle", a); ("coeff", c)] [] in
  let _sdf :=
    Sdf.Elem "plugin" []
      [ Sdf.Elem "drag_coeffs" [] [ point 0.5 0.3; point 0 0.1 ]%float ] in
  exists elem k,
    search (Sdf.children _sdf) "drag_coeffs" = Some elem
    /\ In (k, 0.3%float) (spline_points elem)
    /\ (k <? 0.5)%float = false /\ (0.5 <? k)%float = false.
Proof.
  cbv zeta.
  apply (createSpline_returns_listed true _ "drag_coeffs" 0.5%float 0.3%float).
  reflexivity.
Defined.

(** ** Service calls of a delivery *)

Import ServiceLog.

(** The calls of one callback for a message with an ID: at most one
    origin request, then one creation request, then the performer
    request if the creation went through. *)
Lemma SpawnCallback_calls_with_id (H : GzMath) (self : Plugin)
    (_msg : LRAUVInit) (id : StringMsg) :
  id_ _msg = Some id ->
  exists origin factoryReq created performer,
    calls (node (SpawnCallback self _msg)) =
    calls (node self) ++ origin ++
    {| service := createService self;
       request := ReqEntityFactory factoryReq;
       requested := created |}
    :: (if created
        then [ {| service := performerService self;
                  request := ReqStringMsg {| str_data := str_data id |};
                  requested := performer |} ]
        else [])
    /\ (origin = [] \/
        exists scReq ok,
          origin = [ {| service := setSphericalCoordsService self;
                        request := ReqSphericalCoordinates scReq;
                        requested := ok |} ])
    /\ sdf factoryReq = TethysSdfString _msg
    /\ spherical_coordinates factoryReq =
       {| surface_model := EARTH_WGS84;
          latitude_deg := initLat_ _msg;
          longitude_deg := initLon_ _msg;
          elevation := (- initZ_ _msg)%float;
          heading_deg := 0 |}.
Proof.
  intros Hid. unfold SpawnCallback. rewrite Hid.
  destruct (hasWorldLatLon self); simpl.
  - destruct (accepts (node self) (List.length (calls (node self)))) eqn:Hc;
      simpl; rewrite <- ?app_assoc; simpl;
      exists [];
      first [ eexists; exists true; eexists; simpl;
              split; [reflexivity |]
            | eexists; exists false, false; simpl;
              split; [reflexivity |] ];
      repeat split; auto.
  - destruct (accepts (node self) (List.length (calls (node self)))) eqn:Hsc;
      simpl;
      match goal with
      | |- context [if negb (accepts ?n ?k) then _ else _] =>
          destruct (accepts n k) eqn:Hc; simpl
      end;
      rewrite <- ?app_assoc; simpl;
      eexists [_];
      first [ eexists; exists true; eexists; simpl;
              split; [reflexivity |]
            | eexists; exists false, false; simpl;
              split; [reflexivity |] ];
      repeat split; eauto.
Qed.

(** The calls between the start and the end of a delivery are those of
    its first callback followed by those of the rest. *)
Lemma issued_deliver_cons (H : GzMath) (self : Plugin) (_msg : LRAUVInit)
    (msgs : list LRAUVInit) :
  issued self (deliver self (_msg :: msgs)) =
  issued self (SpawnCallback self _msg)
  ++ issued (SpawnCallback self _msg) (deliver (SpawnCallback self _msg) msgs).
Proof.
  destruct (SpawnCallback_step H self _msg) as (new1 & Hcalls1 & _).
  destruct (deliver_extends H msgs (SpawnCallback self _msg))
    as (new2 & Hcalls2).
  change (deliver self (_msg :: msgs))
    with (deliver (SpawnCallback self _msg) msgs).
  rewrite (issued_extension self _ (new1 ++ new2))
    by (now rewrite Hcalls2, Hcalls1, app_assoc).
  now rewrite (issued_extension _ _ _ Hcalls1),
    (issued_extension _ _ _ Hcalls2).
Qed.

Lemma issued_deliver_nil (H : GzMath) (self : Plugin) :
  issued self (deliver self []) = [].
Proof.
  apply issued_extension. unfold deliver. simpl. now rewrite app_nil_r.
Qed.

Lemma deliver_frame (H : GzMath) (msgs : list LRAUVInit) (self : Plugin) :
  createService (deliver self msgs) = createService self
  /\ performerService (deliver self msgs) = performerService self
  /\ setSphericalCoordsService (deliver self msgs)
     = setSphericalCoordsService self
  /\ spawnTopic (deliver self msgs) = spawnTopic self.
Proof.
  revert self. induction msgs as [| _msg msgs IH]; intros self; [auto |].
  change (deliver self (_msg :: msgs))
    with (deliver (SpawnCallback self _msg) msgs).
  destruct (IH (SpawnCallback self _msg)) as (-> & -> & -> & ->).
  apply SpawnCallback_frame.
Qed.

(** The calls of one callback, summed up for counting. *)
Lemma SpawnCallback_issued_facts (H : GzMath) (self : Plugin)
    (_msg : LRAUVInit) :
  let new := issued self (SpawnCallback self _msg) in
  Forall (fun c => service c = service_for self (request c)) new
  /\ List.length (filter is_create new) = (if has_id _msg then 1 else 0)%nat
  /\ List.length (filter is_performer new)
     = List.length (filter (fun c => is_create c && requested c) new)
  /\ Forall
       (fun c =>
          is_performer c = true ->
          exists id,
            id_ _msg = Some id
            /\ request c = ReqStringMsg {| str_data := str_data id |})
       new.
Proof.
  cbv zeta. unfold has_id.
  destruct (id_ _msg) as [id |] eqn:Hid.
  - destruct (SpawnCallback_calls_with_id H self _msg id Hid)
      as (origin & factoryReq & created & performer & Hcalls & Horigin & _).
    rewrite (issued_extension _ _ _ Hcalls).
    destruct Horigin as [-> | (scReq & ok & ->)]; destruct created; simpl;
      repeat split; repeat constructor; simpl; try discriminate; eauto.
  - rewrite (SpawnCallback_no_id_same H self _msg Hid).
    rewrite (issued_extension self self []) by (now rewrite app_nil_r).
    simpl. repeat split; constructor.
Qed.

Lemma deliver_routed (H : GzMath) (msgs : list LRAUVInit) (self : Plugin) :
  Forall (fun c => service c = service_for self (request c))
    (issued self (deliver self msgs)).
Proof.
  revert self. induction msgs as [| _msg msgs IH]; intros self.
  - rewrite issued_deliver_nil. constructor.
  - rewrite issued_deliver_cons. apply Forall_app. split.
    + apply (SpawnCallback_issued_facts H self _msg).
    + destruct (SpawnCallback_frame H self _msg) as (Hc & Hp & Hs & _).
      eapply Forall_impl; [| apply IH].
      intros c ->. unfold service_for.
      destruct (request c); congruence.
Qed.

(** X5: every service call of a delivery goes to the service of the
    plugin that belongs to its request: origin requests to the
    set-spherical-coordinates service, creation requests to the create
    service, performer requests to the performer service; and the
    delivery changes none of the three service names nor the spawn
    topic. *)
Theorem deliver_calls_routed (H : GzMath) (msgs : list LRAUVInit)
    (self : Plugin) :
  Forall (fun c => service c = service_for self (request c))
    (issued self (deliver self msgs))
  /\ createService (deliver self msgs) = createService self
  /\ performerService (deliver self msgs) = performerService self
  /\ setSphericalCoordsService (deliver self msgs)
     = setSphericalCoordsService self
  /\ spawnTopic (deliver self msgs) = spawnTopic self.
Proof.
  split; [apply deliver_routed | apply deliver_frame].
Qed.

(** X6: whatever the transport does, a delivery makes exactly one
    entity creation request for each spawn message that carries an ID,
    and none for the others. *)
Theorem deliver_one_creation_per_id (H : GzMath) (msgs : list LRAUVInit)
    (self : Plugin) :
  List.length (filter is_create (issued self (deliver self msgs)))
  = List.length (filter has_id msgs).
Proof.
  revert self. induction msgs as [| _msg msgs IH]; intros self.
  - now rewrite issued_deliver_nil.
  - rewrite issued_deliver_cons, filter_app, length_app, IH.
    destruct (SpawnCallback_issued_facts H self _msg) as (_ & -> & _).
    simpl. destruct (has_id _msg); reflexivity.
Qed.

(** X7: performer requests follow creations that went through: over a
    delivery there are as many performer requests as creation requests
    for which [Request] returned true, and each performer request
    carries the ID of one of the delivered messages. *)
Theorem deliver_performer_after_creation (H : GzMath)
    (msgs : list LRAUVInit) (self : Plugin) :
  List.length (filter is_performer (issued self (deliver self msgs)))
  = List.length
      (filter (fun c => is_create c && requested c)
         (issued self (deliver self msgs)))
  /\ Forall
       (fun c =>
          is_performer c = true ->
          exists _msg id,
            In _msg msgs /\ id_ _msg = Some id
            /\ request c = ReqStringMsg {| str_data := str_data id |})
       (issued self (deliver self msgs)).
Proof.
  revert self. induction msgs as [| _msg msgs IH]; intros self.
  - rewrite issued_deliver_nil. split; [reflexivity | constructor].
  - rewrite issued_deliver_cons.
    destruct (SpawnCallback_issued_facts H self _msg) as (_ & _ & Hn & Hid).
    destruct (IH (SpawnCallback self _msg)) as [IHn IHid].
    split.
    + now rewrite !filter_app, !length_app, Hn, IHn.
    + apply Forall_app. split.
      * eapply Forall_impl; [| exact Hid].
        intros c Hc Hp. destruct (Hc Hp) as (id & Hsome & Hreq).
        exists _msg, id. simpl. auto.
      * eapply Forall_impl; [| exact IHid].
        intros c Hc Hp. destruct (Hc Hp) as (m & id & Hin & Hsome & Hreq).
        exists m, id. simpl. auto.
Qed.

(** ** Configure, then spawn messages *)

(** The service names after a [Configure] that reaches its end. *)
Lemma Configure_services (S : GzSim) (self : Plugin) (_entity : Entity)
    (_sdf : SdfElement) (_ecm : ECM) (name : string) :
  subscribable (node self)
    (if HasElement _sdf "spawn_topic" then Get _sdf "spawn_topic"
     else spawnTopic self) = true ->
  worldEntity _entity _ecm <> kNullEntity ->
  WorldName (worldEntity _entity _ecm) _ecm = Some name ->
  empty name = false -> empty (AsValidTopic name) = false ->
  createService (WorldCommPlugin.Configure self _entity _sdf _ecm)
  = ("/world/" ++ AsValidTopic name ++ "/create")%string
  /\ performerService (WorldCommPlugin.Configure self _entity _sdf _ecm)
     = ("/world/" ++ AsValidTopic name ++ "/level/set_performer")%string
  /\ setSphericalCoordsService (WorldCommPlugin.Configure self _entity _sdf _ecm)
     = ("/world/" ++ AsValidTopic name ++ "/set_spherical_coordinates")%string.
Proof.
  intros Hsub Hent Hname Hne Hvalid.
  assert (Hz : Z.eqb kNullEntity (worldEntity _entity _ecm) = false)
    by (apply Z.eqb_neq; congruence).
  unfold WorldCommPlugin.Configure, Subscribe. cbv zeta.
  rewrite Hz, Hname, Hne, Hvalid.
  destruct (HasElement _sdf "spawn_topic"); simpl in *; rewrite Hsub;
    repeat split.
Qed.

(** X8: in a world that has its spherical coordinates when the plugin
    is configured (the subscription to the spawn topic, the one of the
    SDF when it gives one, goes through, and the name of the world
    gives valid service names), no spawn
    message ever asks for the world origin: the calls of every delivery
    are creation requests to [/world/<name>/create] and performer
    requests to [/world/<name>/level/set_performer] only. *)
Theorem Configure_world_with_origin (H : GzMath) (S : GzSim) (self : Plugin)
    (_entity : Entity) (_sdf : SdfElement) (_ecm : ECM) (name : string)
    (msgs : list LRAUVInit) :
  subscribable (node self)
    (if HasElement _sdf "spawn_topic" then Get _sdf "spawn_topic"
     else spawnTopic self) = true ->
  worldEntity _entity _ecm <> kNullEntity ->
  WorldName (worldEntity _entity _ecm) _ecm = Some name ->
  empty name = false -> empty (AsValidTopic name) = false ->
  hasSphericalCoordinates (worldEntity _entity _ecm) _ecm = true ->
  let configured := WorldCommPlugin.Configure self _entity _sdf _ecm in
  let log := issued configured (deliver configured msgs) in
  origin_requests log = []
  /\ Forall
       (fun c =>
          (is_create c = true /\
           service c = ("/world/" ++ AsValidTopic name ++ "/create")%string)
          \/ (is_performer c = true /\
              service c
              = ("/world/" ++ AsValidTopic name ++ "/level/set_performer")%string))
       log.
Proof.
  intros Hsub Hent Hname Hne Hvalid Hsc configured log.
  pose proof (Configure_hasWorldLatLon S self _entity _sdf _ecm name
                Hsub Hent Hname Hne Hvalid) as Hflag.
  rewrite Hsc in Hflag.
  destruct (Configure_services S self _entity _sdf _ecm name
              Hsub Hent Hname Hne Hvalid) as (Hc & Hp & _).
  destruct (deliver_with_origin H msgs configured Hflag) as [Hnone _].
  split; [exact Hnone |].
  pose proof (deliver_routed H msgs configured) as Hrouted.
  fold log in Hnone, Hrouted. clearbody log.
  induction Hrouted as [| c log' Hsvc _ IH]; constructor.
  - unfold service_for in Hsvc. unfold is_create, is_performer.
    unfold origin_requests in Hnone. simpl in Hnone.
    unfold is_origin_request in Hnone.
    destruct (request c).
    + discriminate.
    + left. split; [reflexivity |]. rewrite Hsvc. exact Hc.
    + right. split; [reflexivity |]. rewrite Hsvc. exact Hp.
  - apply IH. unfold origin_requests in *. simpl in Hnone.
    destruct (is_origin_request c); [discriminate | exact Hnone].
Qed.

Lemma Configure_world_with_origin_witness :
  let configured :=
    WorldCommPlugin.Configure (H := ExampleWorld.sim) ExampleWorld.unconfigured 7
      [("spawn_topic", "lrauv/spawn")] tt in
  let log :=
    issued configured
      (deliver (H := ExampleHost.math) configured
         [ ExampleHost.spawn (Some {| str_data := "tethys" |}) 36.8 (-122) 10 ]) in
  origin_requests log = []
  /\ Forall
       (fun c =>
          (is_create c = true /\
           service c = "/world/buoyant_tethys/create")
          \/ (is_performer c = true /\
              service c = "/world/buoyant_tethys/level/set_performer"))
       log.
Proof.
  apply (Configure_world_with_origin ExampleHost.math ExampleWorld.sim
           ExampleWorld.unconfigured 7 [("spawn_topic", "lrauv/spawn")] tt
           "buoyant_tethys");
    try reflexivity; discriminate.
Defined.

(** X9: how [Configure] fails.  The spawn topic is taken from the SDF
    when it is given.  If the subscription is refused, nothing else is
    done.  If it goes through, the plugin is subscribed even when the
    world cannot be found or has no usable name; in that case the three
    service names and [hasWorldLatLon] stay as they were. *)
Theorem Configure_failure (S : GzSim) (self : Plugin) (_entity : Entity)
    (_sdf : SdfElement) (_ecm : ECM) :
  let topic :=
    if HasElement _sdf "spawn_topic" then Get _sdf "spawn_topic"
    else spawnTopic self in
  let configured := WorldCommPlugin.Configure self _entity _sdf _ecm in
  spawnTopic configured = topic
  /\ (subscribable (node self) topic = false ->
      subscriptions (node configured) = subscriptions (node self))
  /\ (subscribable (node self) topic = true ->
      subscriptions (node configured) = subscriptions (node self) ++ [topic])
  /\ (subscribable (node self) topic = false
      \/ worldEntity _entity _ecm = kNullEntity
      \/ WorldName (worldEntity _entity _ecm) _ecm = None
      \/ WorldName (worldEntity _entity _ecm) _ecm = Some EmptyString
      \/ (exists name,
            WorldName (worldEntity _entity _ecm) _ecm = Some name
            /\ empty (AsValidTopic name) = true) ->
      createService configured = createService self
      /\ performerService configured = performerService self
      /\ setSphericalCoordsService configured = setSphericalCoordsService self
      /\ hasWorldLatLon configured = hasWorldLatLon self).
Proof.
  cbv zeta. unfold WorldCommPlugin.Configure, Subscribe. cbv zeta.
  set (self1 := if HasElement _sdf "spawn_topic" then _ else self).
  assert (Htopic : spawnTopic self1 =
                   if HasElement _sdf "spawn_topic" then Get _sdf "spawn_topic"
                   else spawnTopic self)
    by (subst self1; destruct (HasElement _sdf "spawn_topic"); reflexivity).
  assert (Hnode : node self1 = node self)
    by (subst self1; destruct (HasElement _sdf "spawn_topic"); reflexivity).
  assert (Hrest : createService self1 = createService self
                  /\ performerService self1 = performerService self
                  /\ setSphericalCoordsService self1
                     = setSphericalCoordsService self
                  /\ hasWorldLatLon self1 = hasWorldLatLon self)
    by (subst self1; destruct (HasElement _sdf "spawn_topic"); repeat split).
  rewrite <- Htopic, Hnode. clearbody self1.
  destruct (subscribable (node self) (spawnTopic self1)) eqn:Hsub;
    cbn [negb].
  - destruct (Z.eqb kNullEntity (worldEntity _entity _ecm)) eqn:Hz.
    + simpl. split; [reflexivity |]. split; [discriminate |].
      split; [reflexivity |]. intros _. apply Hrest.
    + apply Z.eqb_neq in Hz.
      destruct (WorldName (worldEntity _entity _ecm) _ecm) as [name |] eqn:Hname.
      * destruct (empty name) eqn:Hne.
        { simpl. split; [reflexivity |]. split; [discriminate |].
          split; [reflexivity |]. intros _. apply Hrest. }
        destruct (empty (AsValidTopic name)) eqn:Hvalid.
        { simpl. split; [reflexivity |]. split; [discriminate |].
          split; [reflexivity |]. intros _. apply Hrest. }
        simpl. split; [reflexivity |]. split; [discriminate |].
        split; [reflexivity |].
        intros [Hf | [Hf | [Hf | [Hf | (name' & Hf & Hv)]]]];
          try discriminate.
        -- now elim Hz.
        -- injection Hf as ->. discriminate.
        -- injection Hf as ->. congruence.
      * simpl. split; [reflexivity |]. split; [discriminate |].
        split; [reflexivity |]. intros _. apply Hrest.
  - simpl. split; [reflexivity |]. split; [reflexivity |].
    split; [discriminate |]. intros _. apply Hrest.
Qed.

(** ** The thruster force for either direction *)

Lemma SFmul_opp_r x y :
  SFmul prec emax x (SFopp y) = SFopp (SFmul prec emax x y).
Proof.
  destruct x as [sx | sx | | sx mx ex], y as [sy | sy | | sy my ey];
    simpl; try reflexivity;
    try (destruct sx, sy; reflexivity).
  rewrite <- binary_round_aux_opp. destruct sx, sy; reflexivity.
Qed.

Lemma mul_opp_r (x y : float) : (x * - y)%float = (- (x * y))%float.
Proof.
  apply Prim2SF_inj.
  rewrite mul_spec, !opp_spec, mul_spec. apply SFmul_opp_r.
Qed.

Lemma SFdiv_opp_l x y :
  SFdiv prec emax (SFopp x) y = SFopp (SFdiv prec emax x y).
Proof.
  destruct x as [sx | sx | | sx mx ex], y as [sy | sy | | sy my ey];
    simpl; try reflexivity;
    try (destruct sx, sy; reflexivity).
  destruct (SFdiv_core_binary prec emax (Z.pos mx) ex (Z.pos my) ey)
    as [[mz ez] lz].
  rewrite <- binary_round_aux_opp. destruct sx, sy; reflexivity.
Qed.

Lemma div_opp_l (x y : float) : (- x / y)%float = (- (x / y))%float.
Proof.
  apply Prim2SF_inj.
  rewrite div_spec, !opp_spec, div_spec. apply SFdiv_opp_l.
Qed.

(** Comparing a number and its negation with zero. *)
Lemma ltb_zero_opp (a : float) :
  (0 <? a)%float = true ->
  (- a <? 0)%float = true /\ (a <? 0)%float = false.
Proof.
  rewrite !ltb_spec, opp_spec. change (Prim2SF 0) with (S754_zero false).
  unfold SFltb.
  destruct (Prim2SF a) as [s | s | | s m e]; simpl;
    try discriminate; destruct s; simpl; try discriminate; auto.
Qed.

Lemma ltb_opp_zero (a : float) :
  (a <? 0)%float = true -> (- a <? 0)%float = false.
Proof.
  rewrite !ltb_spec, opp_spec. change (Prim2SF 0) with (S754_zero false).
  unfold SFltb.
  destruct (Prim2SF a) as [s | s | | s m e]; simpl;
    try discriminate; destruct s; simpl; try discriminate; auto.
Qed.

(** A number below zero is a negative finite number or [-oo]. *)
Lemma ltb_neg_zero (x : float) :
  (x <? 0)%float = true -> SFsign (Prim2SF x) = Some true.
Proof.
  rewrite ltb_spec. change (Prim2SF 0) with (S754_zero false).
  unfold SFltb. destruct (Prim2SF x) as [s | s | | s m e]; simpl;
    try discriminate; destruct s; try discriminate; auto.
Qed.

Lemma leb_zero_of_clear_sign (x : float) :
  SFsign (Prim2SF x) = Some false -> (0 <=? x)%float = true.
Proof.
  rewrite leb_spec. change (Prim2SF 0) with (S754_zero false).
  unfold SFleb. destruct (Prim2SF x) as [s | s | | s m e]; simpl;
    try discriminate; intros [= ->]; reflexivity.
Qed.

(** With the sign bit set and not below zero, a number is [-0.0]. *)
Lemma sign_set_not_ltb (a : float) :
  SFsign (Prim2SF a) = Some true -> (a <? 0)%float = false ->
  Prim2SF a = S754_zero true.
Proof.
  rewrite ltb_spec. change (Prim2SF 0) with (S754_zero false).
  unfold SFltb. destruct (Prim2SF a) as [s | s | | s m e]; simpl;
    try discriminate; intros [= ->]; simpl; try discriminate; auto.
Qed.

Lemma SFdiv_finite_sign x s my ey :
  SFsign x = Some s ->
  SFsign (SFdiv prec emax x (S754_finite false my ey)) = Some s.
Proof.
  destruct x as [sx | sx | | sx m e]; simpl; try discriminate;
    intros [= ->]; rewrite ?xorb_false_r; try reflexivity.
  pose proof (SFdiv_core_nonneg m e my ey) as Hq.
  destruct (SFdiv_core_binary prec emax (Z.pos m) e (Z.pos my) ey) as [[mz ez] lz].
  apply binary_round_aux_sign. exact Hq.
Qed.

(** [(c * a) * a] for a negative finite [c]: whatever the sign of [a],
    the sign bit of the result is set, and it is no NaN. *)
Lemma SFmul_neg_sq_sign_any mc ec a s :
  SFsign a = Some s ->
  SFsign (SFmul prec emax (SFmul prec emax (S754_finite true mc ec) a) a)
  = Some true.
Proof.
  destruct a as [sa | sa | | sa m e]; simpl; try discriminate;
    intros [= ->]; try (destruct s; reflexivity).
  replace true with (xorb (xorb true s) s) at 2 by (destruct s; reflexivity).
  apply SFmul_finite_sign.
  apply binary_round_aux_sign. lia.
Qed.

Lemma angVel_of_sign (omega : float) (s : bool) :
  SFsign (Prim2SF omega) = Some s ->
  SFsign (Prim2SF (TethysCommPlugin.angVel_of omega)) = Some s.
Proof.
  intros Hs. unfold TethysCommPlugin.angVel_of. rewrite div_spec.
  assert (Hc : exists mc ec,
             Prim2SF (120 * M_PI)%float = S754_finite false mc ec)
    by (vm_compute; eauto).
  destruct Hc as (mc & ec & ->).
  now apply SFdiv_finite_sign.
Qed.

Lemma SFsign_opp x s : SFsign x = Some s -> SFsign (SFopp x) = Some (negb s).
Proof.
  destruct x as [sx | sx | | sx m e]; simpl; try discriminate;
    intros [= ->]; reflexivity.
Qed.

Lemma thrust_gain_spec :
  exists mc ec,
    Prim2SF (-7.879 * 1000 * 0.0016)%float = S754_finite true mc ec.
Proof. vm_compute; eauto. Qed.

(** X10: a commanded propeller speed below zero always gives a force
    that is at least zero (the mirror image of the case above zero:
    the force opposes the commanded speed in both directions). *)
Theorem thrust_force_neg_omega (omega : float) :
  (omega <? 0)%float = true ->
  (0 <=? TethysCommPlugin.thrust_force omega)%float = true.
Proof.
  intros Hneg.
  pose proof (angVel_of_sign omega true (ltb_neg_zero omega Hneg)) as Hs.
  destruct thrust_gain_spec as (mc & ec & Hc).
  unfold TethysCommPlugin.thrust_force. cbv zeta.
  set (a := TethysCommPlugin.angVel_of omega) in *.
  set (c := (-7.879 * 1000 * 0.0016)%float) in *.
  destruct (a <? 0)%float eqn:Ha.
  - rewrite mul_m1. apply leb_zero_of_clear_sign.
    rewrite opp_spec, (mul_spec (c * a) a), (mul_spec c a), Hc.
    apply (SFsign_opp _ true).
    exact (SFmul_neg_sq_sign_any mc ec _ true Hs).
  - pose proof (sign_set_not_ltb _ Hs Ha) as Hz.
    rewrite leb_spec, (mul_spec (c * a) a), (mul_spec c a), Hc, Hz.
    reflexivity.
Qed.

Lemma thrust_force_neg_omega_witness :
  (0 <=? TethysCommPlugin.thrust_force (-300))%float = true.
Proof.
  apply (thrust_force_neg_omega (-300)%float). reflexivity.
Defined.

(** X11: reversing the commanded speed reverses the force exactly:
    when [a = propOmegaAction_ / (60*2*pi)] is above or below zero, the
    force for [-propOmegaAction_] is the negation of the force for
    [propOmegaAction_].  (For a quotient that is a zero the force is
    [-0.0] in both directions.) *)
Theorem thrust_force_odd (omega : float) :
  let a := (omega / (60 * 2 * M_PI))%float in
  (0 <? a)%float = true \/ (a <? 0)%float = true ->
  TethysCommPlugin.thrust_force (- omega)
  = (- TethysCommPlugin.thrust_force omega)%float.
Proof.
  intros a Ha. unfold TethysCommPlugin.thrust_force. cbv zeta.
  assert (Hopp : TethysCommPlugin.angVel_of (- omega) = (- a)%float)
    by (unfold TethysCommPlugin.angVel_of; apply div_opp_l).
  change (TethysCommPlugin.angVel_of omega) with a.
  rewrite Hopp.
  destruct Ha as [Hpos | Hneg].
  - destruct (ltb_zero_opp a Hpos) as [-> ->].
    rewrite mul_m1, !mul_opp_r, mul_opp_l.
    now rewrite !opp_involutive.
  - rewrite (ltb_opp_zero a Hneg), Hneg.
    rewrite mul_m1, !mul_opp_r, mul_opp_l.
    now rewrite !opp_involutive.
Qed.

Lemma thrust_force_odd_witness :
  TethysCommPlugin.thrust_force (- 300)
  = (- TethysCommPlugin.thrust_force 300)%float.
Proof.
  apply (thrust_force_odd 300%float). left. reflexivity.
Defined.

(** ** The print time over a run of commands *)

Lemma CommandCallback_print_time_step (H : GzMath) (C : FloatToInt)
    (self : TethysCommPlugin.Plugin) (_msg : LRAUVCommand) :
  (forall x, INT_MIN <= int_indefinite x <= INT_MAX) ->
  seconds INT_MIN <= TethysCommPlugin.prevSubPrintTime self <= seconds INT_MAX ->
  TethysCommPlugin.prevSubPrintTime self
  <= TethysCommPlugin.prevSubPrintTime
       (fst (TethysCommPlugin.CommandCallback self _msg))
  /\ seconds INT_MIN
     <= TethysCommPlugin.prevSubPrintTime
          (fst (TethysCommPlugin.CommandCallback self _msg))
     <= seconds INT_MAX.
Proof.
  intros Hconv Hprev.
  pose proof (int_floor_range C (time_ _msg) (Hconv _)) as Hr.
  unfold TethysCommPlugin.CommandCallback. cbv zeta.
  destruct (Z.ltb_spec (milliseconds 1000)
              (seconds (int_floor (time_ _msg))
               - TethysCommPlugin.prevSubPrintTime self)) as [Hgt | Hle];
    simpl; unfold seconds, milliseconds, INT_MIN, INT_MAX in *; lia.
Qed.

(** X12: over every run of commands the time of the last print never
    moves backwards and stays within the seconds an [int] can count,
    so that the difference the print guard takes for the next command
    always fits the 64-bit tick count (given that the conversion to
    [int] delivers an [int], and a print time that starts in range, as
    the zero set by [Configure]). *)
Theorem commands_print_time (H : GzMath) (C : FloatToInt)
    (self : TethysCommPlugin.Plugin) (msgs : list LRAUVCommand) :
  (forall x, INT_MIN <= int_indefinite x <= INT_MAX) ->
  seconds INT_MIN <= TethysCommPlugin.prevSubPrintTime self <= seconds INT_MAX ->
  let self' := TethysRun.commands self msgs in
  TethysCommPlugin.prevSubPrintTime self
  <= TethysCommPlugin.prevSubPrintTime self'
  /\ seconds INT_MIN <= TethysCommPlugin.prevSubPrintTime self'
     <= seconds INT_MAX
  /\ forall _msg,
       - 2 ^ 63 <= seconds (int_floor (time_ _msg))
                   - TethysCommPlugin.prevSubPrintTime self' < 2 ^ 63.
Proof.
  intros Hconv. revert self.
  assert (Hrun : forall self,
            seconds INT_MIN <= TethysCommPlugin.prevSubPrintTime self
            <= seconds INT_MAX ->
            TethysCommPlugin.prevSubPrintTime self
            <= TethysCommPlugin.prevSubPrintTime (TethysRun.commands self msgs)
            /\ seconds INT_MIN
               <= TethysCommPlugin.prevSubPrintTime (TethysRun.commands self msgs)
               <= seconds INT_MAX).
  { induction msgs as [| _msg msgs IH]; intros self Hprev.
    - unfold TethysRun.commands. cbn [fold_left]. lia.
    - destruct (CommandCallback_print_time_step H C self _msg Hconv Hprev)
        as [Hmono Hrange].
      destruct (IH _ Hrange) as [Hmono' Hrange'].
      unfold TethysRun.commands in *. cbn [fold_left]. lia. }
  intros self Hprev self'. subst self'.
  destruct (Hrun self Hprev) as [Hmono Hrange].
  split; [exact Hmono |]. split; [exact Hrange |].
  intros _msg.
  pose proof (int_floor_range C (time_ _msg) (Hconv _)) as Hr.
  clear Hrun Hconv Hprev Hmono.
  set (prev := TethysCommPlugin.prevSubPrintTime _) in *.
  set (t := int_floor _) in *.
  unfold seconds, INT_MIN, INT_MAX in *. lia.
Qed.

Lemma commands_print_time_witness :
  let cmd t :=
    {| propOmegaAction_ := 300; rudderAngleAction_ := 0.01;
       elevatorAngleAction_ := 0; massPositionAction_ := 0;
       buoyancyAction_ := 0; density_ := 0; dt_ := 0; time_ := t |} in
  let self' :=
    TethysRun.commands (H := ExampleHost.math) (H0 := ExampleHost.conv)
      ExampleHost.vehicle [cmd 2.5; cmd 1e10; cmd 4.25]%float in
  TethysCommPlugin.prevSubPrintTime ExampleHost.vehicle
  <= TethysCommPlugin.prevSubPrintTime self'
  /\ seconds INT_MIN <= TethysCommPlugin.prevSubPrintTime self'
     <= seconds INT_MAX
  /\ forall _msg,
       - 2 ^ 63 <= seconds (int_floor (H := ExampleHost.conv) (time_ _msg))
                   - TethysCommPlugin.prevSubPrintTime self' < 2 ^ 63.
Proof.
  cbv zeta.
  apply (commands_print_time ExampleHost.math ExampleHost.conv
           ExampleHost.vehicle).
  - intros x. simpl. unfold INT_MIN, INT_MAX. lia.
  - simpl. unfold seconds, INT_MIN, INT_MAX. lia.
Defined.

(** ** The state message *)

Lemma PostUpdate_Some_inv (H : GzMath) (S : GzSim)
    (self self' : TethysCommPlugin.Plugin) (_info : UpdateInfo) (_ecm : ECM)
    (out : list TethysCommPlugin.Publication) :
  TethysCommPlugin.PostUpdate self _info _ecm = Some (self', out) ->
  exists linVel angVel stateMsg,
    WorldLinearVelocity (TethysCommPlugin.modelLink self) _ecm = Some linVel
    /\ WorldAngularVelocity (TethysCommPlugin.thrusterLink self) _ecm
       = Some angVel
    /\ out = [TethysCommPlugin.PublishState
                (TethysCommPlugin.statePub self) stateMsg]
    /\ speed_ stateMsg = Length linVel
    /\ propOmega_ stateMsg = Length angVel
    /\ depth_ stateMsg
       = (- Z_ (Pos (worldPose (TethysCommPlugin.modelLink self) _ecm)))%float
    /\ sec (stamp (header stateMsg)) = count_seconds (simTime _info)
    /\ nsec (stamp (header stateMsg))
       = wrap32 (wrap32 (simTime _info)
                 - count_seconds (simTime _info) * 1000000000).
Proof.
  unfold TethysCommPlugin.PostUpdate.
  destruct (WorldLinearVelocity _ _) as [linVel |]; [| discriminate].
  destruct (WorldAngularVelocity _ _) as [angVel |]; [| discriminate].
  intros [= _ <-]. do 3 eexists. repeat split.
Qed.

(** X13: the time stamp of a published state is the simulation time:
    for a simulation time that is not negative (and below [2^62]
    ticks), the seconds and nanoseconds of the header add up to the
    time and the nanoseconds lie in [0, 10^9).  The code narrows the
    tick count to [int] before it subtracts the whole seconds; the
    difference stays within 64 bits and the result is the remainder all
    the same. *)
Theorem PostUpdate_time_stamp (H : GzMath) (S : GzSim)
    (self self' : TethysCommPlugin.Plugin) (_info : UpdateInfo) (_ecm : ECM)
    (pub : TethysCommPlugin.Publisher) (stateMsg : LRAUVState) :
  0 <= simTime _info < 2 ^ 62 ->
  TethysCommPlugin.PostUpdate self _info _ecm
  = Some (self', [TethysCommPlugin.PublishState pub stateMsg]) ->
  sec (stamp (header stateMsg)) * 1000000000 + nsec (stamp (header stateMsg))
  = simTime _info
  /\ 0 <= nsec (stamp (header stateMsg)) < 1000000000
  /\ - 2 ^ 63 <= wrap32 (simTime _info)
                 - sec (stamp (header stateMsg)) * 1000000000 < 2 ^ 63.
Proof.
  intros Ht Hpost.
  destruct (PostUpdate_Some_inv H S self self' _info _ecm _ Hpost)
    as (linVel & angVel & msg' & _ & _ & Hout & _ & _ & _ & Hsec & Hnsec).
  injection Hout as _ ->.
  rewrite Hnsec, Hsec, stamp_nsec_remainder by lia.
  unfold count_seconds. rewrite Z.quot_div_nonneg by lia.
  pose proof (Z.div_mod (simTime _info) 1000000000 ltac:(lia)) as Hdm.
  pose proof (Z.mod_pos_bound (simTime _info) 1000000000 ltac:(lia)) as Hb.
  assert (Hw : - 2 ^ 31 <= wrap32 (simTime _info) < 2 ^ 31).
  { unfold wrap32.
    pose proof (Z.mod_pos_bound (simTime _info + 2 ^ 31) (2 ^ 32) ltac:(lia)).
    lia. }
  repeat split; try lia.
Qed.

Lemma PostUpdate_time_stamp_witness :
  exists self' stateMsg,
    @TethysCommPlugin.PostUpdate ExampleHost.math ExampleHost.sim
      ExampleHost.vehicle {| simTime := 7250000125 |} ExampleSetup.moving_ecm
    = Some (self',
            [TethysCommPlugin.PublishState
               (TethysCommPlugin.statePub ExampleHost.vehicle) stateMsg])
    /\ sec (stamp (header stateMsg)) = 7
    /\ nsec (stamp (header stateMsg)) = 250000125
    /\ (sec (stamp (header stateMsg)) * 1000000000
        + nsec (stamp (header stateMsg)) = 7250000125
        /\ 0 <= nsec (stamp (header stateMsg)) < 1000000000
        /\ - 2 ^ 63 <= wrap32 7250000125
                       - sec (stamp (header stateMsg)) * 1000000000 < 2 ^ 63).
Proof.
  do 2 eexists. split; [reflexivity |].
  split; [reflexivity |]. split; [reflexivity |].
  eapply (PostUpdate_time_stamp ExampleHost.math ExampleHost.sim
            ExampleHost.vehicle _ {| simTime := 7250000125 |}
            ExampleSetup.moving_ecm).
  - simpl. lia.
  - reflexivity.
Defined.

(** ** Set-up, then state messages *)

(** The links that [SetupEntities] resolves, by the SDF parameters it
    reads. *)
Lemma SetupEntities_links (H : GzMath) (S : GzSim) (E : TethysSetup.GzEcm)
    (names : TethysSetup.LinkNames) (self : TethysCommPlugin.Plugin)
    (_entity : Entity)
    (_sdf : SdfElement) (_ecm : ECM) :
  let setup := TethysSetup.SetupEntities names self _entity _sdf _ecm in
  let thrusterName :=
    if HasElement _sdf "elavator_link" then Get _sdf "elavator_link"
    else if HasElement _sdf "propeller_link" then Get _sdf "propeller_link"
    else TethysSetup.thrusterLinkName names in
  let baseName :=
    if HasElement _sdf "model_link" then Get _sdf "model_link"
    else TethysSetup.baseLinkName names in
  TethysCommPlugin.modelLink (snd (fst setup))
  = TethysSetup.LinkByName _entity _ecm baseName
  /\ TethysCommPlugin.thrusterLink (snd (fst setup))
     = TethysSetup.LinkByName _entity _ecm thrusterName
  /\ TethysCommPlugin.rudderLink (snd (fst setup))
     = TethysSetup.LinkByName _entity _ecm
         (TethysSetup.rudderLinkName names)
  /\ TethysCommPlugin.statePub (snd (fst setup))
     = TethysCommPlugin.statePub self.
Proof.
  cbv zeta. unfold TethysSetup.SetupEntities.
  destruct (HasElement _sdf "model_link"),
    (HasElement _sdf "propeller_link"),
    (HasElement _sdf "rudder_link"),
    (HasElement _sdf "elavator_link"); repeat split.
Qed.

(** The link names that [SetupEntities] leaves in the plugin, and the
    elevator link: the parameter [rudder_link] is stored as the name of
    the elevator link, [elavator_link] as that of the thruster link, and
    no parameter changes the name of the rudder link. *)
Lemma SetupEntities_names (H : GzMath) (S : GzSim) (E : TethysSetup.GzEcm)
    (names : TethysSetup.LinkNames) (self : TethysCommPlugin.Plugin)
    (_entity : Entity)
    (_sdf : SdfElement) (_ecm : ECM) :
  let setup := TethysSetup.SetupEntities names self _entity _sdf _ecm in
  let thrusterName :=
    if HasElement _sdf "elavator_link" then Get _sdf "elavator_link"
    else if HasElement _sdf "propeller_link" then Get _sdf "propeller_link"
    else TethysSetup.thrusterLinkName names in
  let baseName :=
    if HasElement _sdf "model_link" then Get _sdf "model_link"
    else TethysSetup.baseLinkName names in
  let elevatorName :=
    if HasElement _sdf "rudder_link" then Get _sdf "rudder_link"
    else TethysSetup.elevatorLinkName names in
  fst (fst setup)
  = {| TethysSetup.baseLinkName := baseName;
       TethysSetup.thrusterLinkName := thrusterName;
       TethysSetup.rudderLinkName := TethysSetup.rudderLinkName names;
       TethysSetup.elevatorLinkName := elevatorName |}
  /\ TethysCommPlugin.elevatorLink (snd (fst setup))
     = TethysSetup.LinkByName _entity _ecm elevatorName.
Proof.
  cbv zeta. unfold TethysSetup.SetupEntities.
  destruct names as [b t r e].
  destruct (HasElement _sdf "model_link"),
    (HasElement _sdf "propeller_link"),
    (HasElement _sdf "rudder_link"),
    (HasElement _sdf "elavator_link"); split; reflexivity.
Qed.

(** X14: which links a state message reports on, after set-up.  The
    speed and the depth are those of the link named by [model_link]
    (or the name the plugin had).  The propeller speed is that of the
    link named by the parameter [elavator_link] when the SDF has it,
    and only otherwise by [propeller_link]; the rudder link is always
    looked up under the name the plugin had, whatever the SDF says:
    the parameter [rudder_link] is stored as the name of the elevator
    link, under which the elevator link is looked up, and the name of
    the rudder link stays as it was. *)
Theorem SetupEntities_then_PostUpdate (H : GzMath) (S : GzSim)
    (E : TethysSetup.GzEcm)
    (names : TethysSetup.LinkNames) (self self' : TethysCommPlugin.Plugin)
    (_entity : Entity) (_sdf : SdfElement) (ecm0 _ecm : ECM)
    (_info : UpdateInfo) (pub : TethysCommPlugin.Publisher)
    (stateMsg : LRAUVState) :
  let setup := TethysSetup.SetupEntities names self _entity _sdf ecm0 in
  let thrusterName :=
    if HasElement _sdf "elavator_link" then Get _sdf "elavator_link"
    else if HasElement _sdf "propeller_link" then Get _sdf "propeller_link"
    else TethysSetup.thrusterLinkName names in
  let baseName :=
    if HasElement _sdf "model_link" then Get _sdf "model_link"
    else TethysSetup.baseLinkName names in
  let elevatorName :=
    if HasElement _sdf "rudder_link" then Get _sdf "rudder_link"
    else TethysSetup.elevatorLinkName names in
  TethysCommPlugin.PostUpdate (snd (fst setup)) _info _ecm
  = Some (self', [TethysCommPlugin.PublishState pub stateMsg]) ->
  (exists linVel angVel,
     WorldLinearVelocity (TethysSetup.LinkByName _entity ecm0 baseName) _ecm
     = Some linVel
     /\ speed_ stateMsg = Length linVel
     /\ WorldAngularVelocity
          (TethysSetup.LinkByName _entity ecm0 thrusterName) _ecm
        = Some angVel
     /\ propOmega_ stateMsg = Length angVel)
  /\ depth_ stateMsg
     = (- Z_ (Pos (worldPose (TethysSetup.LinkByName _entity ecm0 baseName)
                     _ecm)))%float
  /\ TethysCommPlugin.rudderLink (snd (fst setup))
     = TethysSetup.LinkByName _entity ecm0
         (TethysSetup.rudderLinkName names)
  /\ pub = TethysCommPlugin.statePub self
  /\ TethysSetup.elevatorLinkName (fst (fst setup)) = elevatorName
  /\ TethysCommPlugin.elevatorLink (snd (fst setup))
     = TethysSetup.LinkByName _entity ecm0 elevatorName
  /\ TethysSetup.rudderLinkName (fst (fst setup))
     = TethysSetup.rudderLinkName names
  /\ TethysSetup.thrusterLinkName (fst (fst setup)) = thrusterName
  /\ TethysSetup.baseLinkName (fst (fst setup)) = baseName.
Proof.
  intros setup thrusterName baseName elevatorName Hpost.
  destruct (SetupEntities_links H S E names self _entity _sdf ecm0)
    as (Hmodel & Hthruster & Hrudder & Hpub).
  destruct (SetupEntities_names H S E names self _entity _sdf ecm0)
    as (Hnames & Helevator).
  fold setup in Hmodel, Hthruster, Hrudder, Hpub, Hnames, Helevator.
  fold thrusterName in Hthruster, Hnames. fold baseName in Hmodel, Hnames.
  fold elevatorName in Hnames, Helevator.
  destruct (PostUpdate_Some_inv H S _ _ _ _ _ Hpost)
    as (linVel & angVel & msg' & Hlin & Hang & Hout & Hspeed & Homega
        & Hdepth & _).
  injection Hout as -> ->.
  rewrite Hmodel in Hlin, Hdepth. rewrite Hthruster in Hang.
  split; [exists linVel, angVel; auto |].
  split; [exact Hdepth |]. split; [exact Hrudder |]. split; [exact Hpub |].
  rewrite Hnames. repeat split. exact Helevator.
Qed.

Lemma SetupEntities_then_PostUpdate_witness :
  let _sdf :=
    [ ("rudder_link", "vertical_fins"); ("elavator_link", "propeller") ] in
  let setup :=
    TethysSetup.SetupEntities (H := ExampleHost.math)
      (H1 := ExampleSetup.ecm_ops)
      ExampleSetup.names ExampleHost.vehicle 1 _sdf ExampleHost.loaded_ecm in
  exists stateMsg,
    (exists linVel angVel,
       WorldLinearVelocity (GzSim := ExampleHost.sim)
         (ExampleSetup.link_of_name "base_link") ExampleSetup.moving_ecm
       = Some linVel
       /\ speed_ stateMsg = Length (GzMath := ExampleHost.math) linVel
       /\ WorldAngularVelocity (GzSim := ExampleHost.sim)
            (ExampleSetup.link_of_name "propeller") ExampleSetup.moving_ecm
          = Some angVel
       /\ propOmega_ stateMsg = Length (GzMath := ExampleHost.math) angVel)
    /\ depth_ stateMsg = 12.5%float
    /\ TethysCommPlugin.rudderLink (snd (fst setup)) = 4
    /\ TethysCommPlugin.Advertise "state_topic"
       = TethysCommPlugin.statePub ExampleHost.vehicle
    /\ TethysSetup.elevatorLinkName (fst (fst setup)) = "vertical_fins"
    /\ TethysCommPlugin.elevatorLink (snd (fst setup)) = 4
    /\ TethysSetup.rudderLinkName (fst (fst setup)) = "vertical_fins"
    /\ TethysSetup.thrusterLinkName (fst (fst setup)) = "propeller"
    /\ TethysSetup.baseLinkName (fst (fst setup)) = "base_link".
Proof.
  cbv zeta. eexists.
  eapply (SetupEntities_then_PostUpdate ExampleHost.math ExampleHost.sim
            ExampleSetup.ecm_ops ExampleSetup.names ExampleHost.vehicle _ 1
            [ ("rudder_link", "vertical_fins"); ("elavator_link", "propeller") ]
            ExampleHost.loaded_ecm ExampleSetup.moving_ecm
            {| simTime := 0 |}).
  reflexivity.
Defined.

(** ** Queries that are equal to, or not comparable with, the keys *)

Lemma SFeqb_compare x y :
  SFeqb x y = true ->
  forall z, SFcompare z x = SFcompare z y /\ SFcompare x z = SFcompare y z.
Proof.
  unfold SFeqb.
  destruct x as [s1 | s1 | | s1 m1 e1], y as [s2 | s2 | | s2 m2 e2]; simpl;
    try discriminate; try (destruct s1, s2; discriminate).
  - intros _ z. destruct z as [s | s | | s m e]; simpl; auto.
  - destruct s1, s2; try discriminate;
      intros _ z; destruct z as [s | s | | s m e]; simpl; auto.
  - assert (Heq : forall c, match c with Eq => true | _ => false end = true ->
                            c = Eq) by (intros []; congruence).
    destruct s1, s2; try discriminate; intros Hc; apply Heq in Hc;
      destruct (Z.compare_spec e1 e2) as [-> | |]; try discriminate;
      rewrite Pos.compare_cont_spec in Hc; simpl in Hc;
      destruct (Pos.compare_spec m1 m2) as [-> | |]; try discriminate;
      intros z; auto.
Qed.

(** Doubles that compare equal (as [0.0] and [-0.0] do) are not told
    apart by [<]. *)
Lemma eqb_ltb (a k : float) :
  (a =? k)%float = true ->
  forall x, (x <? a)%float = (x <? k)%float /\ (a <? x)%float = (k <? x)%float.
Proof.
  rewrite eqb_spec. intros Heq x. rewrite !ltb_spec. unfold SFltb.
  destruct (SFeqb_compare _ _ Heq (Prim2SF x)) as [-> ->]. auto.
Qed.

Lemma interpolate_eqb (m : map) (a k : float) :
  (a =? k)%float = true ->
  FinLiftDragPlugin.interpolate m a = FinLiftDragPlugin.interpolate m k.
Proof.
  intros Heq. pose proof (eqb_ltb a k Heq) as Hlt.
  assert (Hlb : lower_bound m a = lower_bound m k).
  { induction m as [| [k' v'] m' IH]; simpl; auto.
    rewrite (proj1 (Hlt k')), IH. reflexivity. }
  assert (Hub : upper_bound m a = upper_bound m k).
  { clear Hlb. induction m as [| [k' v'] m' IH]; simpl; auto.
    rewrite (proj2 (Hlt k')), IH. reflexivity. }
  assert (Hfind : find m a = find m k).
  { unfold find. rewrite Hlb.
    destruct (deref m (lower_bound m k)) as [[k' v'] |]; auto.
    now rewrite (proj2 (Hlt k')). }
  unfold FinLiftDragPlugin.interpolate, count. now rewrite Hfind, Hub.
Qed.

(** X15: the lookup does not tell apart angles that compare equal: in
    an ordered table, a query that is [==] to a tabulated angle (for
    instance [-0.0] where the table has [0.0]) returns the coefficient
    stored for that angle. *)
Theorem interpolate_equal_angle (m : map) (a k v : float) :
  is_ordered m = true -> In (k, v) m -> (a =? k)%float = true ->
  FinLiftDragPlugin.interpolate m a = FinLiftDragPlugin.Returns v.
Proof.
  intros Hord Hin Heq. rewrite (interpolate_eqb m a k Heq).
  destruct (find_hit m k v Hord Hin) as [Hd Hc].
  unfold FinLiftDragPlugin.interpolate. now rewrite Hc, Hd.
Qed.

Lemma interpolate_equal_angle_witness :
  FinLiftDragPlugin.interpolate
    [(-0.5, 0.25); (0, 0.1); (0.5, 0.3)]%float (-0)%float
  = FinLiftDragPlugin.Returns 0.1%float.
Proof.
  apply (interpolate_equal_angle [(-0.5, 0.25); (0, 0.1); (0.5, 0.3)]%float
           (-0)%float 0%float 0.1%float).
  - reflexivity.
  - simpl. auto.
  - reflexivity.
Defined.

Lemma ltb_nan (x : float) :
  (x <? nan)%float = false /\ (nan <? x)%float = false.
Proof.
  rewrite !ltb_spec. change (Prim2SF nan) with S754_nan. unfold SFltb.
  destruct (Prim2SF x); auto.
Qed.

(** X16: a NaN query is equivalent to every key, since [<] is false
    both ways: on every table that is not empty, [interpolate] answers
    NaN with the coefficient of the first entry, the one with the
    smallest angle, instead of falling through. *)
Theorem interpolate_nan (k v : float) (m : map) :
  FinLiftDragPlugin.interpolate ((k, v) :: m) nan
  = FinLiftDragPlugin.Returns v.
Proof.
  destruct (ltb_nan k) as [Hk Hn].
  unfold FinLiftDragPlugin.interpolate, count, find. simpl.
  rewrite Hk. simpl. rewrite Hn. reflexivity.
Qed.

(** ** The first vehicle and the world origin *)

(** X17: the vehicle whose spawn message sets the world origin is
    created at that origin.  For a message with an ID received while
    [hasWorldLatLon] is false, the calls of the callback are, in this
    order: the origin request, to the service for the spherical
    coordinates, with the surface model EARTH_WGS84, the latitude and
    the longitude of the message, its depth negated as the elevation
    and heading 0; the creation request, whose spherical coordinates
    are the same five values, with the SDF text of the vehicle and the
    orientation of the robot; and, only when the creation request goes
    through, the performer request with the ID of the message.  The
    flag is left as the origin request returned. *)
Theorem SpawnCallback_created_at_origin (H : GzMath) (self : Plugin)
    (_msg : LRAUVInit) (id : StringMsg) :
  id_ _msg = Some id -> hasWorldLatLon self = false ->
  let coords :=
    {| surface_model := EARTH_WGS84;
       latitude_deg := initLat_ _msg;
       longitude_deg := initLon_ _msg;
       elevation := (- initZ_ _msg)%float;
       heading_deg := 0 |} in
  let k := List.length (calls (node self)) in
  issued self (SpawnCallback self _msg) =
  {| service := setSphericalCoordsService self;
     request := ReqSphericalCoordinates coords;
     requested := accepts (node self) k |}
  :: {| service := createService self;
        request :=
          ReqEntityFactory
            {| sdf := TethysSdfString _msg;
               pose_orientation :=
                 qmul (EulerToQuaternion 0 0 (- GZ_PI * 0.5)%float)
                      (EulerToQuaternion (initPitch_ _msg) (initRoll_ _msg)
                                         (- initHeading_ _msg)%float);
               spherical_coordinates := coords |};
        requested := accepts (node self) (S k) |}
  :: (if accepts (node self) (S k)
      then [ {| service := performerService self;
                request := ReqStringMsg {| str_data := str_data id |};
                requested := accepts (node self) (S (S k)) |} ]
      else [])
  /\ hasWorldLatLon (SpawnCallback self _msg) = accepts (node self) k.
Proof.
  intros Hid Hno coords k.
  assert (Hk1 : List.length
                  (calls (node self) ++
                   [ {| service := setSphericalCoordsService self;
                        request := ReqSphericalCoordinates coords;
                        requested := accepts (node self) k |} ]) = S k)
    by (rewrite length_app; simpl; subst k; lia).
  assert (Hcalls :
    calls (node (SpawnCallback self _msg)) =
    calls (node self) ++
    {| service := setSphericalCoordsService self;
       request := ReqSphericalCoordinates coords;
       requested := accepts (node self) k |}
    :: {| service := createService self;
          request :=
            ReqEntityFactory
              {| sdf := TethysSdfString _msg;
                 pose_orientation :=
                   qmul (EulerToQuaternion 0 0 (- GZ_PI * 0.5)%float)
                        (EulerToQuaternion (initPitch_ _msg) (initRoll_ _msg)
                                           (- initHeading_ _msg)%float);
                 spherical_coordinates := coords |};
          requested := accepts (node self) (S k) |}
    :: (if accepts (node self) (S k)
        then [ {| service := performerService self;
                  request := ReqStringMsg {| str_data := str_data id |};
                  requested := accepts (node self) (S (S k)) |} ]
        else [])
    /\ hasWorldLatLon (SpawnCallback self _msg) = accepts (node self) k).
  { unfold SpawnCallback. rewrite Hid, Hno. cbn [negb].
    unfold Request. cbv zeta. fold k. fold coords.
    destruct (accepts (node self) k) eqn:Hok; cbn -[TethysSdfString];
      rewrite Hk1;
      destruct (accepts (node self) (S k)) eqn:Hcr; cbn -[TethysSdfString];
      rewrite <- ?app_assoc; cbn -[TethysSdfString];
      rewrite ?length_app, ?Hk1; cbn -[TethysSdfString];
      try replace (List.length (calls (node self)) + 2)%nat
        with (S (S k)) by (unfold k; lia);
      auto. }
  destruct Hcalls as [Hcalls Hflag].
  split; [| exact Hflag].
  now apply issued_extension.
Qed.

Lemma SpawnCallback_created_at_origin_witness :
  let _msg :=
    ExampleHost.spawn (Some {| str_data := "tethys" |}) 36.8 (-122) 10 in
  let coords :=
    {| surface_model := EARTH_WGS84; latitude_deg := 36.8;
       longitude_deg := -122; elevation := -10; heading_deg := 0 |} in
  issued ExampleHost.world
    (SpawnCallback (H := ExampleHost.math) ExampleHost.world _msg) =
  {| service := setSphericalCoordsService ExampleHost.world;
     request := ReqSphericalCoordinates coords;
     requested := true |}
  :: {| service := createService ExampleHost.world;
        request :=
          ReqEntityFactory
            {| sdf := TethysSdfString _msg;
               pose_orientation :=
                 qmul (GzMath := ExampleHost.math)
                   (EulerToQuaternion (GzMath := ExampleHost.math)
                      0 0 (- GZ_PI * 0.5)%float)
                   (EulerToQuaternion (GzMath := ExampleHost.math)
                      (initPitch_ _msg) (initRoll_ _msg)
                      (- initHeading_ _msg)%float);
               spherical_coordinates := coords |};
        requested := true |}
  :: [ {| service := performerService ExampleHost.world;
          request := ReqStringMsg {| str_data := "tethys" |};
          requested := true |} ]
  /\ hasWorldLatLon
       (SpawnCallback (H := ExampleHost.math) ExampleHost.world _msg) = true.
Proof.
  exact (SpawnCallback_created_at_origin ExampleHost.math ExampleHost.world
           (ExampleHost.spawn (Some {| str_data := "tethys" |}) 36.8 (-122) 10)
           {| str_data := "tethys" |} eq_refl eq_refl).
Defined.
